(** * oop.h: object oriented SQF scripting, as a shallow embedding

    The header [oop.h] expands a class body into one SQF code value, the
    class dispatcher, stored under the class name in [NAMESPACE].  This file
    translates the expansion of [INSTANTIATE_CLASS], the member guards
    ([PUBLIC]/[PROTECTED]/[PRIVATE] with [FUNCTION], [VARIABLE], ...) and
    [FINALIZE_CLASS] into Rocq, together with the few SQF primitives they use.

    The variables of the namespaces are finite maps from names to values; the
    class dispatchers kept in [NAMESPACE] are a finite map of their own, from
    class names to classes.  A member body written by a class author is a
    function from the locals it sees and the state to an outcome.  Calls nest
    (an instance handle calls its class, a class calls its parent), so [call]
    takes fuel, and an outcome says whether the call returned.

    Conventions of the host language that the macros rely on:
    - [a == b] on strings ignores case, [a isEqualTo b] does not;
    - variable names of a namespace ignore case;
    - [setVariable] returns nothing, and the value of a code block is the
      value of its last statement;
    - [call] runs the callee in a child scope of the caller: a local variable
      that the callee does not declare [private] is looked up in the caller's
      scopes.  Of the dispatcher's locals only [_objParentClass] is affected:
      [CLASS_EXTENDS] declares it, [CLASS] does not, so inside a class declared
      with [CLASS] the test [isNil "_objParentClass"] is answered by the
      scopes the class was called from;
    - a scalar is a single-precision number: the scalars modelled are the
      whole numbers, a sum or difference is rounded as the format rounds it
      ([round32]), and [format] prints six significant digits ([fmt_num]). *)

From stdpp Require Import gmap strings list fin_maps pretty.
From Stdlib Require Import ZArith Ascii String Lia SpecFloat.

Set Warnings "-register-all".
Local Open Scope Z_scope.
Local Open Scope string_scope.
Local Open Scope list_scope.

(** ** Strings *)

Definition is_upper (a : ascii) : bool :=
  ((65 <=? nat_of_ascii a) && (nat_of_ascii a <=? 90))%nat.

Definition lower_ascii (a : ascii) : ascii :=
  if is_upper a then ascii_of_nat (nat_of_ascii a + 32) else a.

Fixpoint lower (s : string) : string :=
  match s with
  | EmptyString => EmptyString
  | String a s' => String (lower_ascii a) (lower s')
  end.

(** [a == b] on strings. *)
Definition sqf_eq (a b : string) : bool := String.eqb (lower a) (lower b).

(** [a isEqualTo b] on strings. *)
Definition isEqualTo (a b : string) : bool := String.eqb a b.

(** [format ["%1_%2", a, b]] for two strings. *)
Definition format2 (a b : string) : string := a +:+ "_" +:+ b.

(** ** Values *)

(** Code values the header itself builds or looks up: the default [{nil}],
    an instance handle [compile format ['["%1", ...] call GETCLASS(className)', id]]
    and the dispatcher registered under a class name. *)
Inductive code : Type :=
  | CNil
  | CObj (className id : string)
  | CClass (className : string).

Inductive value : Type :=
  | VNum (z : Z)
  | VStr (s : string)
  | VBool (b : bool)
  | VArr (l : list (option value))
  | VCode (c : code)
  | VOther (ty : string) (handle : nat).

(** [typeName v]. *)
Definition typeName (v : value) : string :=
  match v with
  | VNum _ => "SCALAR"
  | VStr _ => "STRING"
  | VBool _ => "BOOL"
  | VArr _ => "ARRAY"
  | VCode _ => "CODE"
  | VOther ty _ => ty
  end.

(** The whole number nearest to [x] that a single-precision scalar can hold:
    [x] itself below 2^24, else 24 significant bits with ties to the even
    significand.  A result of 2^128 stands for an infinite scalar, which the
    whole numbers do not have. *)
Definition round32 (x : Z) : Z :=
  let a := Z.abs x in
  if (a <? 16777216)%Z then x
  else
    let q := 2 ^ (Z.log2 a - 23) in
    let m := a / q in
    let r := a mod q in
    let up :=
      if (2 * r <? q)%Z then false else if (q <? 2 * r)%Z then true else Z.odd m in
    Z.sgn x * ((if up then m + 1 else m) * q).

(** The whole number a finite single-precision float of the Standard Library
    stands for, and [x] rounded by the library to that format. *)
Definition binary32_value (f : spec_float) : option Z :=
  match f with
  | S754_zero _ => Some 0
  | S754_finite s m e =>
      Some (cond_Zopp s (if (0 <=? e)%Z then Zpos m * 2 ^ e else Zpos m / 2 ^ (- e)))
  | _ => None
  end.
Definition binary32_of_Z (x : Z) : option Z :=
  binary32_value (binary_normalize 24 128 x 0 false).

Fixpoint strip_leading_zeros (s : string) : string :=
  match s with
  | String "0" s' => strip_leading_zeros s'
  | _ => s
  end.
Definition strip_trailing_zeros (s : string) : string :=
  String.rev (strip_leading_zeros (String.rev s)).

(** A whole number of seven digits or more as [format] prints it: six
    significant digits (a tie rounds away from zero), trailing zeros dropped,
    and an exponent of three digits, as in [1.23457e+006] and [1e+006]. *)
Definition fmt_sci (a : Z) : string :=
  let e := Z.of_nat (String.length (pretty a)) - 1 in
  let q := 10 ^ (e - 5) in
  let d := (2 * a + q) / (2 * q) in
  let e' := if (d =? 1000000)%Z then e + 1 else e in
  let d' := if (d =? 1000000)%Z then 100000 else d in
  let frac := strip_trailing_zeros (substring 1 5 (pretty (100000 + d' mod 100000))) in
  pretty (d' / 100000) +:+ (if String.eqb frac "" then "" else "." +:+ frac)
    +:+ "e+" +:+ substring 1 3 (pretty (1000 + e')).

(** [str]/[format "%1"] of a scalar: all digits up to six of them. *)
Definition fmt_num (z : Z) : string :=
  if (Z.abs z <? 1000000)%Z then pretty z
  else (if (z <? 0)%Z then "-" else "") +:+ fmt_sci (Z.abs z).

(** [format "%1"] of a value.  The header formats the counter only, right
    after storing a scalar in it; the other cases are never reached from it
    and arrays and code are not spelled out. *)
Definition fmt_value (v : value) : string :=
  match v with
  | VNum z => fmt_num z
  | VStr s => s
  | VBool true => "true"
  | VBool false => "false"
  | VArr _ => "[...]"
  | VCode _ => "{...}"
  | VOther ty _ => ty
  end.

(** ** Namespaces *)

Inductive space : Type := missionNamespace | uiNamespace | profileNamespace.

#[global] Instance space_eq_dec : EqDecision space.
Proof. solve_decision. Defined.

Record state : Type := mkState {
  mission : gmap string value;
  ui : gmap string value;
  profile : gmap string value
}.

Definition empty_state : state := mkState ∅ ∅ ∅.

Definition vars (sp : space) (s : state) : gmap string value :=
  match sp with
  | missionNamespace => mission s
  | uiNamespace => ui s
  | profileNamespace => profile s
  end.

Definition with_vars (sp : space) (m : gmap string value) (s : state) : state :=
  match sp with
  | missionNamespace => mkState m (ui s) (profile s)
  | uiNamespace => mkState (mission s) m (profile s)
  | profileNamespace => mkState (mission s) (ui s) m
  end.

(** [space getVariable [name, nil]]. *)
Definition getVariable (sp : space) (name : string) (s : state) : option value :=
  vars sp s !! lower name.

(** [space setVariable [name, v]]; storing nil removes the variable. *)
Definition setVariable (sp : space) (name : string) (v : option value) (s : state) : state :=
  match v with
  | Some x => with_vars sp (<[lower name := x]> (vars sp s)) s
  | None => with_vars sp (delete (lower name) (vars sp s)) s
  end.

(** ** [param] *)

(** The array [param] reads from: [_this] itself when it is an array, the
    one-element array [[_this]] otherwise. *)
Definition params_of (this : option value) : list (option value) :=
  match this with
  | None => []
  | Some (VArr l) => l
  | Some v => [Some v]
  end.

(** [param [idx, nil]]. *)
Definition param (idx : nat) (this : option value) : option value :=
  match params_of this !! idx with
  | Some (Some v) => Some v
  | _ => None
  end.

(** [param [idx, "", [""]]]. *)
Definition param_str (idx : nat) (this : option value) : string :=
  match param idx this with
  | Some (VStr s) => s
  | _ => ""
  end.

(** [param [idx, 0, [0]]]. *)
Definition param_num (idx : nat) (this : option value) : Z :=
  match param idx this with
  | Some (VNum z) => z
  | _ => 0
  end.

(** [param [idx, {nil}, [{}]]]. *)
Definition param_code (idx : nat) (this : option value) : code :=
  match param idx this with
  | Some (VCode c) => c
  | _ => CNil
  end.

(** ** Classes, members and guards *)

(** [PUBLIC], [PROTECTED], [PRIVATE] expand to [CHECK_ACCESS(0)], [(1)], [(2)]. *)
Inductive access : Type := PUBLIC | PROTECTED | PRIVATE.

Definition lvl (a : access) : Z :=
  match a with PUBLIC => 0 | PROTECTED => 1 | PRIVATE => 2 end.

(** The local variables a member body sees.  [_objParentClass] is the binding
    visible in the dispatcher's scope: its own when the class was declared
    with [CLASS_EXTENDS], the caller's otherwise. *)
Record locals : Type := mkLocals {
  _objClassID : string;
  _objMember : string;
  _this : option value;
  _objAccess : Z;
  _objArgType : string;
  _objClass : string;
  _objParentClass : option string
}.

(** What a call does: it returns a value (nil is [None]) in a new state,
    stops on a script error, or does not return. *)
Inductive outcome : Type :=
  | Returned (r : option value) (s : state)
  | Failed
  | Diverged.

(** A member body written by the class author. *)
Definition handler : Type := locals -> state -> outcome.

Inductive member : Type :=
  | FUNCTION (typeStr fncName : string) (body : handler)
  | VAR (static : bool) (sp : space) (typeStr varName : string).

Record guard : Type := Guard { g_access : access; g_member : member }.

Definition g_name (g : guard) : string :=
  match g_member g with
  | FUNCTION _ n _ => n
  | VAR _ _ _ n => n
  end.

(** [CLASS(className)] has no [parentClassName];
    [CLASS_EXTENDS(childClassName,parentClassName)] has one. *)
Record class : Type := mkClass {
  className : string;
  parentClassName : option string;
  members : list guard
}.

Definition CLASS (name : string) (ms : list guard) : class := mkClass name None ms.
Definition CLASS_EXTENDS (child parent : string) (ms : list guard) : class :=
  mkClass child (Some parent) ms.

Definition CONSTRUCTOR_METHOD : string := "constructor".
Definition DECONSTRUCTOR_METHOD : string := "deconstructor".
Definition AUTO_INC_VAR (name : string) : string := name +:+ "_IDAI".

Definition CHECK_TYPE (l : locals) (typeStr : string) : bool :=
  sqf_eq (_objArgType l) typeStr || sqf_eq typeStr "ANY".
Definition CHECK_NIL (l : locals) : bool := sqf_eq (_objArgType l) "".
Definition CHECK_MEMBER (l : locals) (name : string) : bool := sqf_eq (_objMember l) name.
Definition CHECK_VAR (l : locals) (typeStr varName : string) : bool :=
  CHECK_MEMBER l varName && (CHECK_TYPE l typeStr || CHECK_NIL l).
Definition CHECK_ACCESS (l : locals) (a : access) : bool := (lvl a <=? _objAccess l)%Z.

Definition GETVAR (l : locals) (var : string) : string := format2 (_objClassID l) var.
Definition GETSVAR (l : locals) (var : string) : string := format2 (_objClass l) var.

Definition VAR_DFT_FUNC (varName : string) (sp : space) : handler := fun l s =>
  match _this l with
  | None => Returned (getVariable sp (GETVAR l varName) s) s
  | Some v => Returned None (setVariable sp (GETVAR l varName) (Some v) s)
  end.

Definition SVAR_DFT_FUNC (varName : string) (sp : space) : handler := fun l s =>
  match _this l with
  | None => Returned (getVariable sp (GETSVAR l varName) s) s
  | Some v => Returned None (setVariable sp (GETSVAR l varName) (Some v) s)
  end.

(** [VAR_DELETE(varName,space)], used by [DELETE_VARIABLE] inside a body. *)
Definition VAR_DELETE (l : locals) (varName : string) (sp : space) (s : state) : state :=
  setVariable sp (GETVAR l varName) None s.

(** The condition between [if] and [exitWith] of a guard. *)
Definition guard_cond (g : guard) (l : locals) : bool :=
  CHECK_ACCESS l (g_access g) &&
  match g_member g with
  | FUNCTION typeStr fncName _ => CHECK_MEMBER l fncName && CHECK_TYPE l typeStr
  | VAR _ _ typeStr varName => CHECK_VAR l typeStr varName
  end.

(** The code after [exitWith]. *)
Definition guard_body (g : guard) : handler :=
  match g_member g with
  | FUNCTION _ _ body => body
  | VAR false sp _ varName => VAR_DFT_FUNC varName sp
  | VAR true sp _ varName => SVAR_DFT_FUNC varName sp
  end.

(** A chain of [if (...) exitWith {...};] statements followed by [rest]. *)
Fixpoint run_guards (gs : list guard) (l : locals) (s : state) (rest : outcome) : outcome :=
  match gs with
  | [] => rest
  | g :: gs' => if guard_cond g l then guard_body g l s else run_guards gs' l s rest
  end.

(** [GET_AUTO_INC(className) + 1]: only scalars can be incremented. *)
Definition plus_one (v : value) : option value :=
  match v with
  | VNum z => Some (VNum (round32 (z + 1)))
  | _ => None
  end.

(** [call]: the visible [_objParentClass], the code, its argument, the state. *)
Definition caller : Type := option string -> code -> option value -> state -> outcome.

Section Dispatcher.

(** [#define NAMESPACE missionNamespace] unless the includer defines it. *)
Variable NAMESPACE : space.

(** The class dispatchers stored in [NAMESPACE], by lower-cased class name. *)
Variable registry : gmap string class.

Definition VARIABLE := VAR false NAMESPACE.
Definition STATIC_VARIABLE := VAR true NAMESPACE.
Definition M_VARIABLE := VAR false missionNamespace.
Definition STATIC_M_VARIABLE := VAR true missionNamespace.
Definition UI_VARIABLE := VAR false uiNamespace.
Definition STATIC_UI_VARIABLE := VAR true uiNamespace.
Definition P_VARIABLE := VAR false profileNamespace.
Definition STATIC_P_VARIABLE := VAR true profileNamespace.

(** [NAMESPACE getVariable [className, {nil}]]. *)
Definition GETCLASS (name : string) : code :=
  match registry !! lower name with
  | Some _ => CClass name
  | None => CNil
  end.

(** [NAMESPACE getVariable [AUTO_INC_VAR(className), 0]]. *)
Definition GET_AUTO_INC (name : string) (s : state) : value :=
  default (VNum 0) (getVariable NAMESPACE (AUTO_INC_VAR name) s).

(** [[_objClassID, member, args, access] call GETCLASS(className)]. *)
Definition CALLCLASS (call : caller) (l : locals) (name member : string)
    (args : option value) (acc : Z) (s : state) : outcome :=
  call (_objParentClass l) (GETCLASS name)
    (Some (VArr [Some (VStr (_objClassID l)); Some (VStr member); args; Some (VNum acc)])) s.

(** [if (!isNil "_objParentClass") exitWith {CALLCLASS(_objParentClass,_objMember,_this,1)};] *)
Definition FINALIZE_CLASS (call : caller) (l : locals) (s : state) : outcome :=
  match _objParentClass l with
  | Some parent => CALLCLASS call l parent (_objMember l) (_this l) 1 s
  | None => Returned None s
  end.

(** The code stored by [INSTANTIATE_CLASS(className) ... FINALIZE_CLASS].
    [amb] is the [_objParentClass] binding of the calling scope, if any. *)
Definition dispatcher (call : caller) (cls : class) (amb : option string)
    (this : option value) (s : state) : outcome :=
  let objClassID := param_str 0 this in
  if isEqualTo objClassID "" then Returned None s
  else if sqf_eq objClassID "new" then
    match plus_one (GET_AUTO_INC (className cls) s) with
    | None => Failed
    | Some n =>
        let s1 := setVariable NAMESPACE (AUTO_INC_VAR (className cls)) (Some n) s in
        let objCode :=
          CObj (className cls)
               (format2 (className cls) (fmt_value (GET_AUTO_INC (className cls) s1))) in
        match call amb objCode
                (Some (VArr [Some (VStr CONSTRUCTOR_METHOD); param 1 this])) s1 with
        | Returned _ s2 => Returned (Some (VCode objCode)) s2
        | Failed => Failed
        | Diverged => Diverged
        end
    end
  else if sqf_eq objClassID "delete" then
    call amb (param_code 1 this)
      (Some (VArr [Some (VStr DECONSTRUCTOR_METHOD); param 2 this])) s
  else if sqf_eq objClassID "static" then
    call amb (GETCLASS (className cls))
      (Some (VArr [Some (VStr (className cls)); Some (VStr (param_str 1 this));
                   param 2 this; Some (VNum 0)])) s
  else
    let objMember := param_str 1 this in
    let this' := param 2 this in
    let objAccess := param_num 3 this in
    if isEqualTo objMember "" then Returned None s
    else
      let objArgType := match this' with None => "" | Some v => typeName v end in
      let l := mkLocals objClassID objMember this' objAccess objArgType (className cls)
                 (match parentClassName cls with Some p => Some p | None => amb end) in
      run_guards (members cls) l s (FINALIZE_CLASS call l s).

(** [this call c], with [fuel] bounding the depth of nested calls. *)
Fixpoint call_code (fuel : nat) (amb : option string) (c : code)
    (this : option value) (s : state) : outcome :=
  match fuel with
  | O => Diverged
  | S fuel' =>
      match c with
      | CNil => Returned None s
      | CObj name id =>
          call_code fuel' amb (GETCLASS name)
            (Some (VArr [Some (VStr id); Some (VStr (param_str 0 this));
                         param 1 this; Some (VNum 0)])) s
      | CClass name =>
          match registry !! lower name with
          | Some cls => dispatcher (call_code fuel') cls amb this s
          | None => Returned None s
          end
      end
  end.

End Dispatcher.

(** ** Calls, scripts and the vocabulary of the properties *)

(** The argument array [[id, member, arg, access]] of a member call. *)
Definition member_call (id m : string) (arg : option value) (acc : Z) : option value :=
  Some (VArr [Some (VStr id); Some (VStr m); arg; Some (VNum acc)]).

(** The argument arrays of the three control operations. *)
Definition new_call (arg : option value) : option value :=
  Some (VArr [Some (VStr "new"); arg]).
Definition delete_call (h : option value) (arg : option value) : option value :=
  Some (VArr [Some (VStr "delete"); h; arg]).
Definition static_call (m : string) (arg : option value) : option value :=
  Some (VArr [Some (VStr "static"); Some (VStr m); arg]).

(** First elements that reach the guard chain: neither empty nor one of the
    control operations. *)
Definition is_member_id (id : string) : bool :=
  negb (isEqualTo id "") && negb (sqf_eq id "new") &&
  negb (sqf_eq id "delete") && negb (sqf_eq id "static").

(** The locals the dispatcher of [cls] binds for a member call. *)
Definition locals_of (cls : class) (amb : option string) (id m : string)
    (arg : option value) (acc : Z) : locals :=
  mkLocals id m arg acc
    (match arg with None => "" | Some v => typeName v end)
    (className cls)
    (match parentClassName cls with Some p => Some p | None => amb end).

(** The storage key of a variable member. *)
Definition var_key (static : bool) (l : locals) (varName : string) : string :=
  if static then GETSVAR l varName else GETVAR l varName.

(** A class without its [PRIVATE] members, and a registry of such classes. *)
Definition is_private (g : guard) : bool :=
  match g_access g with PRIVATE => true | _ => false end.
Definition no_private (cls : class) : class :=
  mkClass (className cls) (parentClassName cls)
          (List.filter (fun g => negb (is_private g)) (members cls)).
Definition strip_private (registry : gmap string class) : gmap string class :=
  no_private <$> registry.

(** A class with its [PUBLIC] members only. *)
Definition is_public (g : guard) : bool :=
  match g_access g with PUBLIC => true | _ => false end.
Definition only_public (cls : class) : class :=
  mkClass (className cls) (parentClassName cls) (List.filter is_public (members cls)).

(** A script: calls made one after the other, each with its own fuel and the
    [_objParentClass] binding of the scope it is made from. *)
Record invocation : Type := Invoke {
  inv_fuel : nat;
  inv_scope : option string;
  inv_code : code;
  inv_this : option value
}.

Fixpoint run_calls (NAMESPACE : space) (registry : gmap string class)
    (cs : list invocation) (s : state) : option state :=
  match cs with
  | [] => Some s
  | c :: cs' =>
      match call_code NAMESPACE registry (inv_fuel c) (inv_scope c) (inv_code c) (inv_this c) s with
      | Returned _ s' => run_calls NAMESPACE registry cs' s'
      | _ => None
      end
  end.

(** No member of a registered class touches the instance counter of class
    [name]: function bodies leave it as it is, and no variable member kept in
    [NAMESPACE] has a storage key that coincides with it. *)
Definition keeps_counter (NAMESPACE : space) (registry : gmap string class)
    (name : string) : Prop :=
  forall k cls g, registry !! k = Some cls -> In g (members cls) ->
    match g_member g with
    | FUNCTION _ _ body =>
        forall l s r s', body l s = Returned r s' ->
          getVariable NAMESPACE (AUTO_INC_VAR name) s' =
          getVariable NAMESPACE (AUTO_INC_VAR name) s
    | VAR _ sp _ varName =>
        sp = NAMESPACE ->
        forall id, lower (format2 id varName) <> lower (AUTO_INC_VAR name)
    end.

(** The instance counter of class [name], when it holds a scalar that is not
    negative in [s], holds one in [s'] that is not smaller, or is 2^24 or
    more, where adding 1 no longer changes a single-precision scalar. *)
Definition counter_le (NAMESPACE : space) (name : string) (s s' : state) : Prop :=
  forall z, GET_AUTO_INC NAMESPACE name s = VNum z -> 0 <= z ->
    exists z', GET_AUTO_INC NAMESPACE name s' = VNum z' /\ Z.min z 16777216 <= z'.

(** [o2] agrees with [o1] unless [o1] ran out of fuel. *)
Definition refines (o1 o2 : outcome) : Prop := o1 <> Diverged -> o1 = o2.

(** A string without its first [n] characters. *)
Fixpoint drop_chars (n : nat) (s : string) : string :=
  match n, s with
  | S n', String _ s' => drop_chars n' s'
  | _, _ => s
  end.

(** Whether a string has the separator that [format ["%1_%2", ...]] inserts. *)
Fixpoint has_underscore (s : string) : bool :=
  match s with
  | EmptyString => false
  | String c s' => Ascii.eqb c "_" || has_underscore s'
  end.

(** ** Example classes *)

(** Sequencing of two statements of a body. *)
Definition and_then (o : outcome) (k : option value -> state -> outcome) : outcome :=
  match o with
  | Returned r s => k r s
  | Failed => Failed
  | Diverged => Diverged
  end.

(** [MEMBER(varName,arg)] inside a body of the class that declares the
    variable [varName]: the call at access level 2 reaches the variable's
    guard and runs its body on the same [_objClassID] and [_objClass]. *)
Definition MEMBER_variable (static : bool) (sp : space) (varName : string)
    (l : locals) (arg : option value) : state -> outcome :=
  (if static then SVAR_DFT_FUNC varName sp else VAR_DFT_FUNC varName sp)
    (mkLocals (_objClassID l) varName arg 2
       (match arg with None => "" | Some v => typeName v end)
       (_objClass l) (_objParentClass l)).

(** [_unitCount - 1]. *)
Definition minus_one (v : option value) : option value :=
  match v with
  | Some (VNum z) => Some (VNum (round32 (z - 1)))
  | _ => None
  end.

(** [CLASS("PlayerInfo") ... ENDCLASS] of the header's introduction. *)
Definition PlayerInfo_constructor : handler := fun l s =>
  and_then (MEMBER_variable false missionNamespace "currentUnit" l (_this l) s) (fun _ s1 =>
  and_then (MEMBER_variable true missionNamespace "unitCount" l None s1) (fun unitCount s2 =>
  match plus_one (default (VNum 0) unitCount) with
  | Some n => MEMBER_variable true missionNamespace "unitCount" l (Some n) s2
  | None => Failed
  end)).

Definition PlayerInfo_deconstructor : handler := fun l s =>
  let s1 := VAR_DELETE l "currentUnit" missionNamespace s in
  and_then (MEMBER_variable true missionNamespace "unitCount" l None s1) (fun unitCount s2 =>
  match minus_one unitCount with
  | Some n =>
      and_then (MEMBER_variable true missionNamespace "unitCount" l (Some n) s2)
        (fun _ s3 => Returned None s3)
  | None => Failed
  end).

Definition PlayerInfo : class :=
  CLASS "PlayerInfo"
    [ Guard PRIVATE (STATIC_VARIABLE missionNamespace "scalar" "unitCount");
      Guard PRIVATE (VARIABLE missionNamespace "object" "currentUnit");
      Guard PUBLIC (FUNCTION "object" "constructor" PlayerInfo_constructor);
      Guard PUBLIC (FUNCTION "" "getUnit" (fun l s =>
        MEMBER_variable false missionNamespace "currentUnit" l None s));
      Guard PUBLIC (FUNCTION "" "setUnit" (fun l s =>
        MEMBER_variable false missionNamespace "currentUnit" l (_this l) s));
      Guard PUBLIC (FUNCTION "string" "deconstructor" PlayerInfo_deconstructor) ].

Definition PlayerInfo_registry : gmap string class :=
  <[lower "PlayerInfo" := PlayerInfo]> ∅.

(** A script over [PlayerInfo]: create an instance, delete it, create another. *)
Definition outcome_state (o : outcome) : state :=
  match o with Returned _ s => s | _ => empty_state end.
Definition outcome_value (o : outcome) : option value :=
  match o with Returned r _ => r | _ => None end.

Definition first_new : outcome :=
  call_code missionNamespace PlayerInfo_registry 5 None (CClass "PlayerInfo")
    (new_call (Some (VOther "OBJECT" 1))) empty_state.
Definition delete_first : list invocation :=
  [ Invoke 5 None (CClass "PlayerInfo")
      (delete_call (outcome_value first_new) (Some (VStr "Player Removed!"))) ].
Definition second_new : outcome :=
  call_code missionNamespace PlayerInfo_registry 5 None (CClass "PlayerInfo")
    (new_call (Some (VOther "OBJECT" 2)))
    (default empty_state
       (run_calls missionNamespace PlayerInfo_registry delete_first (outcome_state first_new))).

(** A counter shared by all instances: a private static variable [count] and
    a public function [increment] that adds 1 and returns the new value. *)
Definition Counter_increment : handler := fun l s =>
  and_then (MEMBER_variable true missionNamespace "count" l None s) (fun count s1 =>
  match plus_one (default (VNum 0) count) with
  | Some n =>
      and_then (MEMBER_variable true missionNamespace "count" l (Some n) s1)
        (fun _ s2 => Returned (Some n) s2)
  | None => Failed
  end).

Definition Counter : class :=
  CLASS "Counter"
    [ Guard PRIVATE (STATIC_VARIABLE missionNamespace "scalar" "count");
      Guard PUBLIC (FUNCTION "" "increment" Counter_increment) ].

Definition Counter_registry : gmap string class := <[lower "Counter" := Counter]> ∅.

(** [this call h] for each handle of a list, threading the state and keeping
    the results. *)
Fixpoint call_each (registry : gmap string class) (hs : list code) (this : option value)
    (s : state) : list (option value) :=
  match hs with
  | [] => []
  | h :: hs' =>
      let o := call_code missionNamespace registry 5 None h this s in
      outcome_value o :: call_each registry hs' this (outcome_state o)
  end.

(** A class with one private function and one with an overloaded member. *)
Definition Vault : class :=
  CLASS "Vault"
    [ Guard PRIVATE (FUNCTION "ANY" "secret" (fun _ s => Returned (Some (VNum 42)) s)) ].

Definition Vault_registry : gmap string class := <[lower "Vault" := Vault]> ∅.

Definition Shape : class :=
  CLASS "Shape"
    [ Guard PUBLIC (FUNCTION "scalar" "scale" (fun _ s => Returned (Some (VStr "by number")) s));
      Guard PUBLIC (FUNCTION "ANY" "scale" (fun _ s => Returned (Some (VStr "by anything")) s)) ].

(** A base class with a protected constructor and deconstructor and a child
    that inherits them;
    a base class with a constructor and a member, and a child with a member
    of its own: no class of the second pair has a deconstructor or a member
    [update]. *)
Definition Base_constructor : guard :=
  Guard PROTECTED (FUNCTION "ANY" CONSTRUCTOR_METHOD (fun _ s =>
    Returned None (setVariable missionNamespace "built" (Some (VBool true)) s))).
Definition Base_deconstructor : guard :=
  Guard PROTECTED (FUNCTION "ANY" DECONSTRUCTOR_METHOD (fun _ s =>
    Returned None (setVariable missionNamespace "built" (Some (VBool false)) s))).
Definition Base : class := CLASS "Base" [Base_constructor; Base_deconstructor].
Definition Derived : class := CLASS_EXTENDS "Derived" "Base" [].
Definition Derived_registry : gmap string class :=
  <[lower "Derived" := Derived]> (<[lower "Base" := Base]> ∅).

(** A class whose constructor is private and whose deconstructor is protected. *)
Definition Sealed : class :=
  CLASS "Sealed"
    [ Guard PRIVATE (FUNCTION "ANY" CONSTRUCTOR_METHOD (fun _ s =>
        Returned None (setVariable missionNamespace "built" (Some (VBool true)) s)));
      Guard PROTECTED (FUNCTION "ANY" DECONSTRUCTOR_METHOD (fun _ s =>
        Returned None (setVariable missionNamespace "built" (Some (VBool false)) s))) ].
Definition Sealed_registry : gmap string class := <[lower "Sealed" := Sealed]> ∅.

Definition Parent : class :=
  CLASS "Parent"
    [ Guard PUBLIC (FUNCTION "ANY" CONSTRUCTOR_METHOD (fun _ s => Returned None s));
      Guard PROTECTED (FUNCTION "" "name" (fun _ s => Returned (Some (VStr "parent")) s)) ].
Definition Child : class :=
  CLASS_EXTENDS "Child" "Parent"
    [ Guard PUBLIC (FUNCTION "" "kind" (fun _ s => Returned (Some (VStr "child")) s)) ].
Definition Child_registry : gmap string class :=
  <[lower "Child" := Child]> (<[lower "Parent" := Parent]> ∅).

(** A child class that keeps to itself a member its parent offers to all. *)
Definition Animal : class :=
  CLASS "Animal"
    [ Guard PUBLIC (FUNCTION "" "sound" (fun _ s => Returned (Some (VStr "generic")) s)) ].
Definition Dog : class :=
  CLASS_EXTENDS "Dog" "Animal"
    [ Guard PRIVATE (FUNCTION "" "sound" (fun _ s => Returned (Some (VStr "woof")) s)) ].
Definition Dog_registry : gmap string class :=
  <[lower "Dog" := Dog]> (<[lower "Animal" := Animal]> ∅).

(** A class with a static variable [IDAI], which its deconstructor sets to 0
    with [MEMBER("IDAI",0)]: the variable's key is the key of the instance
    counter. *)
Definition Pool : class :=
  CLASS "Pool"
    [ Guard PRIVATE (STATIC_VARIABLE missionNamespace "scalar" "IDAI");
      Guard PUBLIC (FUNCTION "ANY" DECONSTRUCTOR_METHOD (fun l s =>
        MEMBER_variable true missionNamespace "IDAI" l (Some (VNum 0)) s)) ].
Definition Pool_registry : gmap string class := <[lower "Pool" := Pool]> ∅.

(** A state in which the instance counter of [PlayerInfo] stands at 999999. *)
Definition many_instances : state :=
  setVariable missionNamespace (AUTO_INC_VAR "PlayerInfo") (Some (VNum 999999)) empty_state.

(** ** The macros for member bodies *)

(** A class with every member made [PUBLIC]. *)
Definition all_public (cls : class) : class :=
  mkClass (className cls) (parentClassName cls)
          (List.map (fun g => Guard PUBLIC (g_member g)) (members cls)).

(** [MEMBER(memberStr,args)]: [CALLCLASS(_objClass,memberStr,args,2)]. *)
Definition MEMBER (registry : gmap string class) (call : caller) (l : locals)
    (memberStr : string) (args : option value) (s : state) : outcome :=
  CALLCLASS registry call l (_objClass l) memberStr args 2 s.

(** [FUNC_GETVAR(varName)]: the body [{MEMBER(varName,nil)}]. *)
Definition FUNC_GETVAR (registry : gmap string class) (call : caller)
    (varName : string) : handler :=
  fun l s => MEMBER registry call l varName None s.

(** [IS_NIL(varName)]: [isNil {MEMBER(varName,nil)}]. *)
Definition IS_NIL (registry : gmap string class) (call : caller) (l : locals)
    (varName : string) (s : state) : outcome :=
  and_then (MEMBER registry call l varName None s) (fun r s' =>
    Returned (Some (VBool (match r with None => true | Some _ => false end))) s').

(** [DELETE_VARIABLE], [DELETE_M_VARIABLE], [DELETE_UI_VARIABLE] and
    [DELETE_P_VARIABLE]: [VAR_DELETE] in the namespace of the macro. *)
Definition DELETE_VARIABLE (NAMESPACE : space) (l : locals) (varName : string)
    (s : state) : state := VAR_DELETE l varName NAMESPACE s.
Definition DELETE_M_VARIABLE (l : locals) (varName : string) (s : state) : state :=
  VAR_DELETE l varName missionNamespace s.
Definition DELETE_UI_VARIABLE (l : locals) (varName : string) (s : state) : state :=
  VAR_DELETE l varName uiNamespace s.
Definition DELETE_P_VARIABLE (l : locals) (varName : string) (s : state) : state :=
  VAR_DELETE l varName profileNamespace s.

(** [MOD_VAR(varName,mod)]: [MEMBER(varName,MEMBER(varName,nil) mod)].  The
    operator with its right operand, [modify], maps the value read to the value
    passed on, or to nothing when it raises a script error. *)
Definition MOD_VAR (registry : gmap string class) (call : caller) (l : locals)
    (varName : string) (modify : option value -> option (option value)) (s : state) : outcome :=
  and_then (MEMBER registry call l varName None s) (fun cur s1 =>
    match modify cur with
    | Some new => MEMBER registry call l varName new s1
    | None => Failed
    end).

(** [cur + n] and [cur - n] for a scalar [n]: the rounded sum or difference
    for a scalar [cur], nil for nil, a script error for anything else. *)
Definition plus_scalar (n : Z) (cur : option value) : option (option value) :=
  match cur with
  | None => Some None
  | Some (VNum z) => Some (Some (VNum (round32 (z + n))))
  | Some _ => None
  end.
Definition minus_scalar (n : Z) (cur : option value) : option (option value) :=
  match cur with
  | None => Some None
  | Some (VNum z) => Some (Some (VNum (round32 (z - n))))
  | Some _ => None
  end.

(** [ADD_VAR(varName,value)] and [SUB_VAR(varName,value)] for a scalar
    [value]; [INC_VAR(varName)] and [DEC_VAR(varName)]. *)
Definition ADD_VAR (registry : gmap string class) (call : caller) (l : locals)
    (varName : string) (value : Z) : state -> outcome :=
  MOD_VAR registry call l varName (plus_scalar value).
Definition SUB_VAR (registry : gmap string class) (call : caller) (l : locals)
    (varName : string) (value : Z) : state -> outcome :=
  MOD_VAR registry call l varName (minus_scalar value).
Definition INC_VAR (registry : gmap string class) (call : caller) (l : locals)
    (varName : string) : state -> outcome := ADD_VAR registry call l varName 1.
Definition DEC_VAR (registry : gmap string class) (call : caller) (l : locals)
    (varName : string) : state -> outcome := SUB_VAR registry call l varName 1.

(** ** The macros on the argument array *)

(** [CHECK_THIS]: nil becomes [[]], a value that is no array becomes the
    array of that value. *)
Definition CHECK_THIS (this : option value) : value :=
  match this with
  | None => VArr []
  | Some (VArr l) => VArr l
  | Some v => VArr [Some v]
  end.

(** [arr set [idx, v]]: an index past the end extends the array with nil. *)
Definition sqf_set (idx : nat) (v : option value) (arr : list (option value)) :
    list (option value) :=
  <[idx := v]> (arr ++ replicate (S idx - List.length arr) None).

(** [ENSURE_INDEX(idx,dft)]:
    [if ((count _this) <= idx) then {_this set [idx, dft]}]. *)
Definition ENSURE_INDEX (idx : nat) (dft : option value) (this : list (option value)) :
    list (option value) :=
  if (List.length this <=? idx)%nat then sqf_set idx dft this else this.

(** ** Vocabulary and example classes for the macros *)

(** The type a guard asks of its argument. *)
Definition g_type (g : guard) : string :=
  match g_member g with
  | FUNCTION t _ _ => t
  | VAR _ _ t _ => t
  end.

(** An argument passes the type test of a variable member: it is nil, has the
    type asked for, or any type is accepted. *)
Definition fits (typeStr : string) (arg : option value) : Prop :=
  match arg with
  | None => True
  | Some v => sqf_eq (typeName v) typeStr || sqf_eq typeStr "ANY" = true
  end.

(** In the scope [l] of a member body, [varName] is a variable member of the
    body's own class that no earlier guard of the class shadows. *)
Definition own_variable (registry : gmap string class) (l : locals)
    (static : bool) (sp : space) (typeStr varName : string) : Prop :=
  exists cls pre a post,
    registry !! lower (_objClass l) = Some cls /\
    className cls = _objClass l /\
    members cls = pre ++ Guard a (VAR static sp typeStr varName) :: post /\
    Forall (fun g => sqf_eq varName (g_name g) = false) pre /\
    varName <> "" /\
    is_member_id (_objClassID l) = true.

(** A class that extends a class nobody registered. *)
Definition Orphan : class := CLASS_EXTENDS "Orphan" "Nowhere" [].
Definition Orphan_registry : gmap string class := <[lower "Orphan" := Orphan]> ∅.

(** A base class with a protected static variable and a public instance
    variable, and a child class with a member of its own. *)
Definition Account : class :=
  CLASS "Account"
    [ Guard PROTECTED (STATIC_VARIABLE missionNamespace "scalar" "total");
      Guard PUBLIC (VARIABLE missionNamespace "string" "owner") ].
Definition Savings : class :=
  CLASS_EXTENDS "Savings" "Account"
    [ Guard PUBLIC (FUNCTION "" "rate" (fun _ s => Returned (Some (VNum 3)) s)) ].
Definition Account_registry : gmap string class :=
  <[lower "Savings" := Savings]> (<[lower "Account" := Account]> ∅).

(** The locals of a body of [Counter] and of [PlayerInfo] run for an instance. *)
Definition Counter_locals (id : string) : locals :=
  mkLocals id "increment" None 0 "" "Counter" None.
Definition PlayerInfo_locals (id : string) : locals :=
  mkLocals id "setUnit" None 0 "" "PlayerInfo" None.

(** * Properties *)

(** ** Single-precision whole numbers *)

Lemma round32_small (x : Z) : Z.abs x < 16777216 -> round32 x = x.
Proof.
  intros H. unfold round32. destruct (Z.ltb_spec (Z.abs x) 16777216); [reflexivity|lia].
Qed.

Lemma round32_large (x : Z) : 16777216 <= x -> 16777216 <= round32 x.
Proof.
  intros H. unfold round32.
  destruct (Z.ltb_spec (Z.abs x) 16777216) as [Hlt|_]; [lia|].
  rewrite Z.abs_eq, Z.sgn_pos by lia.
  assert (He : 24 <= Z.log2 x).
  { change 24 with (Z.log2 16777216). now apply Z.log2_le_mono. }
  destruct (Z.log2_spec x) as [Hlo _]; [lia|].
  set (q := 2 ^ (Z.log2 x - 23)).
  assert (Hq : 0 < q) by (apply Z.pow_pos_nonneg; lia).
  assert (Hpow : 2 ^ Z.log2 x = 8388608 * q).
  { unfold q. replace (Z.log2 x) with (23 + (Z.log2 x - 23)) at 1 by lia.
    rewrite Z.pow_add_r by lia. reflexivity. }
  assert (H24 : 16777216 <= 2 ^ Z.log2 x).
  { change 16777216 with (2 ^ 24). apply Z.pow_le_mono_r; lia. }
  assert (Hm : 8388608 <= x / q).
  { apply Z.div_le_lower_bound; lia. }
  destruct (2 * (x mod q) <? q)%Z;
    [|destruct (q <? 2 * (x mod q))%Z; [|destruct (Z.odd (x / q))]]; nia.
Qed.

(** 16777216 itself is a single-precision number. *)
Lemma round32_exact (x : Z) : Z.abs x <= 16777216 -> round32 x = x.
Proof.
  intros H. destruct (Z.eq_dec (Z.abs x) 16777216) as [E|E].
  - destruct (Z.abs_spec x) as [[_ Hx]|[_ Hx]]; rewrite Hx in E.
    + now subst x.
    + replace x with (-16777216) by lia. reflexivity.
  - apply round32_small. lia.
Qed.

(** [round32] is the rounding of the Standard Library's binary32 format, on
    whole numbers up to and past 2^24, ties included. *)
Example round32_is_binary32 :
  List.map binary32_of_Z
    [0; 1; -1; 999999; 16777215; 16777216; 16777217; 16777218; 16777219; 16777221;
     -16777217; -16777219; 33554433; 33554434; 33554438; 1000000007;
     12345678901234567890; 2 ^ 100 + 2 ^ 76 + 1; 2 ^ 128 - 2 ^ 103 - 1] =
  List.map (fun x => Some (round32 x))
    [0; 1; -1; 999999; 16777215; 16777216; 16777217; 16777218; 16777219; 16777221;
     -16777217; -16777219; 33554433; 33554434; 33554438; 1000000007;
     12345678901234567890; 2 ^ 100 + 2 ^ 76 + 1; 2 ^ 128 - 2 ^ 103 - 1].
Proof. vm_compute. reflexivity. Qed.

(** What [format] prints for a counter: every digit below a million, six
    digits from there on. *)
Example fmt_num_examples :
  List.map fmt_num [0; 7; 999999; 1000000; 1000001; 1234567; 16777216] =
  ["0"; "7"; "999999"; "1e+006"; "1e+006"; "1.23457e+006"; "1.67772e+007"].
Proof. vm_compute. reflexivity. Qed.

Lemma fmt_num_small (z : Z) : Z.abs z < 1000000 -> fmt_num z = pretty z.
Proof.
  intros H. unfold fmt_num. destruct (Z.ltb_spec (Z.abs z) 1000000); [reflexivity|lia].
Qed.

(** ** Strings and namespaces *)

Lemma append_cons (a : ascii) (s t : string) : String a s +:+ t = String a (s +:+ t).
Proof. reflexivity. Qed.

Lemma lower_app (a b : string) : lower (a +:+ b) = lower a +:+ lower b.
Proof.
  induction a as [|c a IH]; [reflexivity|].
  rewrite append_cons. simpl lower. rewrite append_cons. now f_equal.
Qed.

Lemma sqf_eq_true (a b : string) : sqf_eq a b = true <-> lower a = lower b.
Proof. unfold sqf_eq. apply String.eqb_eq. Qed.

Lemma sqf_eq_false (a b : string) : sqf_eq a b = false <-> lower a <> lower b.
Proof. unfold sqf_eq. apply String.eqb_neq. Qed.

Lemma sqf_eq_refl (a : string) : sqf_eq a a = true.
Proof. now apply sqf_eq_true. Qed.

Lemma sqf_eq_trans_l (a b c : string) : sqf_eq a b = true -> sqf_eq a c = sqf_eq b c.
Proof. unfold sqf_eq. intros H%String.eqb_eq. now rewrite H. Qed.

Lemma length_append (a b : string) :
  String.length (a +:+ b) = (String.length a + String.length b)%nat.
Proof.
  induction a as [|x a IH]; [reflexivity|].
  rewrite append_cons. simpl. now rewrite IH.
Qed.

Lemma append_inj_r (a b c : string) : a +:+ c = b +:+ c -> a = b.
Proof.
  revert b. induction a as [|x a IH]; intros [|y b] H.
  - reflexivity.
  - exfalso. apply (f_equal String.length) in H.
    rewrite !length_append in H. simpl in H. lia.
  - exfalso. apply (f_equal String.length) in H.
    rewrite !length_append in H. simpl in H. lia.
  - rewrite !append_cons in H. injection H as -> H. f_equal. now apply IH.
Qed.

Lemma lower_format2 (a b : string) : lower (format2 a b) = lower a +:+ "_" +:+ lower b.
Proof. unfold format2. now rewrite !lower_app. Qed.

(** Keys of different instance identifiers differ, also for a namespace that
    ignores case. *)
Lemma format2_key_inj (a b v : string) :
  lower (format2 a v) = lower (format2 b v) -> lower a = lower b.
Proof. rewrite !lower_format2. apply append_inj_r. Qed.

Lemma vars_with_vars (sp sp' : space) (m : gmap string value) (s : state) :
  vars sp' (with_vars sp m s) = if decide (sp = sp') then m else vars sp' s.
Proof. destruct sp, sp'; reflexivity. Qed.

Lemma getVariable_setVariable (sp sp' : space) (k k' : string) (v : option value) (s : state) :
  getVariable sp' k' (setVariable sp k v s) =
  if decide (sp = sp' /\ lower k = lower k') then v else getVariable sp' k' s.
Proof.
  unfold getVariable, setVariable.
  destruct v as [x|]; rewrite vars_with_vars; destruct (decide (sp = sp')) as [->|Hsp].
  - rewrite lookup_insert. repeat case_decide; tauto || done.
  - case_decide; tauto || done.
  - rewrite lookup_delete. repeat case_decide; tauto || done.
  - case_decide; tauto || done.
Qed.

Lemma getVariable_setVariable_eq (sp : space) (k k' : string) (v : option value) (s : state) :
  lower k = lower k' -> getVariable sp k' (setVariable sp k v s) = v.
Proof. intros H. rewrite getVariable_setVariable. case_decide; tauto. Qed.

Lemma getVariable_setVariable_ne (sp sp' : space) (k k' : string) (v : option value) (s : state) :
  sp <> sp' \/ lower k <> lower k' ->
  getVariable sp' k' (setVariable sp k v s) = getVariable sp' k' s.
Proof. intros H. rewrite getVariable_setVariable. case_decide; tauto. Qed.

Lemma getVariable_empty (sp : space) (k : string) : getVariable sp k empty_state = None.
Proof. destruct sp; apply lookup_empty. Qed.

(** ** The guard chain *)

Lemma run_guards_skip (pre gs : list guard) (l : locals) (s : state) (rest : outcome) :
  Forall (fun g => guard_cond g l = false) pre ->
  run_guards (pre ++ gs) l s rest = run_guards gs l s rest.
Proof.
  induction 1 as [|g pre Hg _ IH]; [reflexivity|].
  simpl. now rewrite Hg.
Qed.

Lemma run_guards_unmatched (gs : list guard) (l : locals) (s : state) (rest : outcome) :
  Forall (fun g => guard_cond g l = false) gs -> run_guards gs l s rest = rest.
Proof.
  intros H. rewrite <- (app_nil_r gs). now rewrite run_guards_skip.
Qed.

Lemma run_guards_hit (g : guard) (gs : list guard) (l : locals) (s : state) (rest : outcome) :
  guard_cond g l = true -> run_guards (g :: gs) l s rest = guard_body g l s.
Proof. intros H. simpl. now rewrite H. Qed.

Lemma is_member_id_spec (id : string) :
  is_member_id id = true ->
  isEqualTo id "" = false /\ sqf_eq id "new" = false /\
  sqf_eq id "delete" = false /\ sqf_eq id "static" = false.
Proof.
  unfold is_member_id. rewrite !andb_true_iff, !negb_true_iff. tauto.
Qed.

Lemma param_member_call_2 (id m : string) (arg : option value) (acc : Z) :
  param 2 (member_call id m arg acc) = arg.
Proof. now destruct arg. Qed.

Section DispatcherFacts.

Variable NAMESPACE : space.
Variable registry : gmap string class.

(** A member call runs the guard chain and then [FINALIZE_CLASS]. *)
Lemma dispatcher_member_call (call : caller) (cls : class) (amb : option string)
    (id m : string) (arg : option value) (acc : Z) (s : state) :
  is_member_id id = true -> m <> "" ->
  dispatcher NAMESPACE registry call cls amb (member_call id m arg acc) s =
  run_guards (members cls) (locals_of cls amb id m arg acc) s
    (FINALIZE_CLASS registry call (locals_of cls amb id m arg acc) s).
Proof.
  intros (H0 & H1 & H2 & H3)%is_member_id_spec Hm.
  unfold dispatcher.
  change (param_str 0 (member_call id m arg acc)) with id.
  change (param_str 1 (member_call id m arg acc)) with m.
  change (param_num 3 (member_call id m arg acc)) with acc.
  rewrite param_member_call_2, H0, H1, H2, H3.
  apply String.eqb_neq in Hm. unfold isEqualTo at 1. rewrite Hm.
  reflexivity.
Qed.

End DispatcherFacts.

(** ** Variable members *)

(** C1 (amended): for every variable member guard (static or not, in any
    namespace), the body invoked with a nil argument returns the value stored
    under the variable's key and leaves the state as it is (nil when nothing
    was written); invoked with a present argument it stores the argument under
    that key and returns nil, the result of [setVariable]; a later read
    returns the stored argument. *)
Theorem variable_get_set (a : access) (static : bool) (sp : space)
    (typeStr varName id m ty cl : string) (acc : Z) (par : option string)
    (v : value) (s : state) :
  let g := Guard a (VAR static sp typeStr varName) in
  let l := fun arg => mkLocals id m arg acc ty cl par in
  let key := var_key static (l None) varName in
  guard_body g (l None) s = Returned (getVariable sp key s) s /\
  guard_body g (l None) empty_state = Returned None empty_state /\
  guard_body g (l (Some v)) s = Returned None (setVariable sp key (Some v) s) /\
  guard_body g (l None) (setVariable sp key (Some v) s) =
    Returned (Some v) (setVariable sp key (Some v) s).
Proof.
  destruct static; cbn -[getVariable setVariable];
    rewrite getVariable_empty, getVariable_setVariable_eq by reflexivity; auto.
Qed.

(** C1, as stated, fails: writing a present argument through the private
    variable [currentUnit] of [PlayerInfo] stores it and returns nil, not
    the argument. *)
Lemma variable_write_returns_nil_cex :
  let out := call_code missionNamespace PlayerInfo_registry 1 None (CClass "PlayerInfo")
               (member_call "PlayerInfo_1" "currentUnit" (Some (VOther "OBJECT" 7)) 2)
               empty_state in
  (exists s', out = Returned None s' /\
     getVariable missionNamespace "PlayerInfo_1_currentUnit" s' = Some (VOther "OBJECT" 7)) /\
  (forall s', out <> Returned (Some (VOther "OBJECT" 7)) s').
Proof.
  split.
  - eexists. split; [vm_compute; reflexivity|]. vm_compute. reflexivity.
  - intros s'. vm_compute. discriminate.
Qed.

(** ** Matching *)

Lemma guard_cond_name (g : guard) (l : locals) :
  guard_cond g l = true -> sqf_eq (_objMember l) (g_name g) = true.
Proof.
  unfold guard_cond, g_name, CHECK_VAR, CHECK_MEMBER.
  destruct (g_member g); rewrite !andb_true_iff; tauto.
Qed.

Lemma guard_cond_access (g : guard) (l : locals) :
  guard_cond g l = true -> lvl (g_access g) <= _objAccess l.
Proof.
  unfold guard_cond, CHECK_ACCESS. rewrite andb_true_iff. intros [H _]. lia.
Qed.

Lemma guard_cond_other_name (g : guard) (l : locals) :
  sqf_eq (_objMember l) (g_name g) = false -> guard_cond g l = false.
Proof.
  intros H. destruct (guard_cond g l) eqn:Hc; [|reflexivity].
  apply guard_cond_name in Hc. congruence.
Qed.

(** Guards for the called member that ask for more than the requester's
    access level do not match. *)
Lemma guards_above_access (cls : class) (amb : option string) (id m : string)
    (arg : option value) (acc : Z) :
  (forall g, In g (members cls) -> sqf_eq m (g_name g) = true -> acc < lvl (g_access g)) ->
  Forall (fun g => guard_cond g (locals_of cls amb id m arg acc) = false) (members cls).
Proof.
  intros HL. apply List.Forall_forall. intros g Hg.
  destruct (guard_cond g (locals_of cls amb id m arg acc)) eqn:Hc; [exfalso|reflexivity].
  pose proof (guard_cond_name _ _ Hc) as Hn.
  pose proof (guard_cond_access _ _ Hc) as Ha.
  cbn in Hn, Ha. specialize (HL g Hg Hn). lia.
Qed.

Section Matching.

Variable NAMESPACE : space.
Variable registry : gmap string class.

(** C2: when two guards of a class both match a member call, the body of
    the earlier-declared one decides the call: everything declared after it,
    the later guard included, has no effect, and when no guard before it
    matches its body is the one that runs. *)
Theorem first_match_wins (call : caller) (cls : class) (amb : option string)
    (id m : string) (arg : option value) (acc : Z) (s : state)
    (pre mid post : list guard) (g1 g2 : guard) :
  is_member_id id = true -> m <> "" ->
  members cls = pre ++ g1 :: mid ++ g2 :: post ->
  guard_cond g1 (locals_of cls amb id m arg acc) = true ->
  guard_cond g2 (locals_of cls amb id m arg acc) = true ->
  dispatcher NAMESPACE registry call cls amb (member_call id m arg acc) s =
    dispatcher NAMESPACE registry call
      (mkClass (className cls) (parentClassName cls) (pre ++ [g1])) amb
      (member_call id m arg acc) s /\
  (Forall (fun g => guard_cond g (locals_of cls amb id m arg acc) = false) pre ->
   dispatcher NAMESPACE registry call cls amb (member_call id m arg acc) s =
     guard_body g1 (locals_of cls amb id m arg acc) s).
Proof.
  intros Hid Hm Hms H1 _.
  rewrite !dispatcher_member_call by assumption.
  rewrite Hms. cbn [members className parentClassName].
  change (locals_of (mkClass (className cls) (parentClassName cls) (pre ++ [g1]))
            amb id m arg acc) with (locals_of cls amb id m arg acc).
  set (l := locals_of cls amb id m arg acc) in *.
  clear Hms. split.
  - induction pre as [|g pre IH]; simpl.
    + now rewrite H1.
    + destruct (guard_cond g l); [reflexivity|apply IH].
  - intros Hpre. rewrite run_guards_skip by assumption. now apply run_guards_hit.
Qed.


(** C10: a call whose first element is the empty string (or no string at
    all), and a member call with an empty member name, return nil at once in
    an unchanged state: whatever the members of the class, its parent and
    the code that nested calls would run. *)
Theorem empty_id_or_member_returns_nil (call : caller) (cls : class)
    (amb : option string) (this : option value) (s : state) :
  param_str 0 this = "" \/
    (is_member_id (param_str 0 this) = true /\ param_str 1 this = "") ->
  dispatcher NAMESPACE registry call cls amb this s = Returned None s.
Proof.
  unfold dispatcher. intros [-> | [(H0 & H1 & H2 & H3)%is_member_id_spec ->]].
  - reflexivity.
  - now rewrite H0, H1, H2, H3.
Qed.

End Matching.

(** ** Forwarding to the parent class *)

Section Forwarding.

Variable NAMESPACE : space.
Variable registry : gmap string class.

Lemma call_code_class (fuel : nat) (amb : option string) (name : string)
    (cls : class) (this : option value) (s : state) :
  registry !! lower name = Some cls ->
  call_code NAMESPACE registry (S fuel) amb (CClass name) this s =
  dispatcher NAMESPACE registry (call_code NAMESPACE registry fuel) cls amb this s.
Proof. intros H. simpl. now rewrite H. Qed.

Lemma GETCLASS_registered (name : string) (cls : class) :
  registry !! lower name = Some cls -> GETCLASS registry name = CClass name.
Proof. intros H. unfold GETCLASS. now rewrite H. Qed.

Lemma GETCLASS_missing (name : string) :
  registry !! lower name = None -> GETCLASS registry name = CNil.
Proof. intros H. unfold GETCLASS. now rewrite H. Qed.

(** A member call that matches no guard of a class declared with
    [CLASS_EXTENDS] is passed on to the parent's dispatcher: same instance
    identifier, member and argument, access level 1. *)
Lemma forward_to_parent (call : caller) (cls : class) (amb : option string)
    (id m parent : string) (arg : option value) (acc : Z) (s : state) :
  is_member_id id = true -> m <> "" ->
  parentClassName cls = Some parent ->
  Forall (fun g => guard_cond g (locals_of cls amb id m arg acc) = false) (members cls) ->
  dispatcher NAMESPACE registry call cls amb (member_call id m arg acc) s =
  call (Some parent) (GETCLASS registry parent) (member_call id m arg 1) s.
Proof.
  intros Hid Hm Hp Hall.
  rewrite dispatcher_member_call, run_guards_unmatched by assumption.
  unfold FINALIZE_CLASS, CALLCLASS, locals_of. cbn. now rewrite Hp.
Qed.

(** With no parent class in scope the unmatched call returns nil. *)
Lemma unmatched_without_parent (call : caller) (cls : class)
    (id m : string) (arg : option value) (acc : Z) (s : state) :
  is_member_id id = true -> m <> "" ->
  parentClassName cls = None ->
  Forall (fun g => guard_cond g (locals_of cls None id m arg acc) = false) (members cls) ->
  dispatcher NAMESPACE registry call cls None (member_call id m arg acc) s = Returned None s.
Proof.
  intros Hid Hm Hp Hall.
  rewrite dispatcher_member_call, run_guards_unmatched by assumption.
  unfold FINALIZE_CLASS, locals_of. cbn. now rewrite Hp.
Qed.

(** A class name that is not registered stands for [{nil}]. *)
Lemma missing_class_returns_nil (fuel : nat) (amb : option string) (name : string)
    (this : option value) (s : state) :
  registry !! lower name = None ->
  call_code NAMESPACE registry (S fuel) amb (GETCLASS registry name) this s = Returned None s.
Proof. intros H. now rewrite GETCLASS_missing. Qed.

(** ["delete"] with no code at index 1 calls [{nil}]. *)
Lemma delete_absent_handle_returns_nil (fuel : nat) (cls : class) (amb : option string)
    (arg : option value) (s : state) :
  dispatcher NAMESPACE registry (call_code NAMESPACE registry (S fuel)) cls amb
    (delete_call None arg) s = Returned None s.
Proof. reflexivity. Qed.

(** A class declared with [CLASS] does not bind [_objParentClass]; reached
    from the dispatcher of a child it finds the child's binding, which names
    the class itself, and passes the unmatched call on to itself. *)
Lemma base_class_reforwards (parent : string) (cls : class) (id m : string)
    (arg : option value) (s : state) :
  registry !! lower parent = Some cls -> parentClassName cls = None ->
  is_member_id id = true -> m <> "" ->
  Forall (fun g => guard_cond g (locals_of cls (Some parent) id m arg 1) = false)
         (members cls) ->
  forall fuel,
    call_code NAMESPACE registry fuel (Some parent) (CClass parent)
      (member_call id m arg 1) s = Diverged.
Proof.
  intros Hreg Hp Hid Hm Hall fuel.
  induction fuel as [|fuel IH]; [reflexivity|].
  rewrite (call_code_class _ _ _ _ _ _ Hreg).
  rewrite dispatcher_member_call, run_guards_unmatched by assumption.
  unfold FINALIZE_CLASS, CALLCLASS, locals_of. cbn. rewrite Hp.
  now rewrite (GETCLASS_registered _ _ Hreg).
Qed.

End Forwarding.

(** ** More fuel does not change a result *)

Lemma run_guards_refines (gs : list guard) (l : locals) (s : state) (rest1 rest2 : outcome) :
  refines rest1 rest2 -> refines (run_guards gs l s rest1) (run_guards gs l s rest2).
Proof.
  intros H. induction gs as [|g gs IH]; simpl; [exact H|].
  destruct (guard_cond g l); [intros _; reflexivity|exact IH].
Qed.

Section Fuel.

Variable NAMESPACE : space.
Variable registry : gmap string class.

Lemma dispatcher_refines (call1 call2 : caller) (cls : class) (amb : option string)
    (this : option value) (s : state) :
  (forall amb' c this' s', refines (call1 amb' c this' s') (call2 amb' c this' s')) ->
  refines (dispatcher NAMESPACE registry call1 cls amb this s)
          (dispatcher NAMESPACE registry call2 cls amb this s).
Proof.
  intros Hcall. unfold dispatcher.
  destruct (isEqualTo (param_str 0 this) ""); [intros _; reflexivity|].
  destruct (sqf_eq (param_str 0 this) "new").
  { destruct (plus_one _) as [n|]; [|intros _; reflexivity].
    cbv zeta. match goal with |- context [call1 ?a ?c ?t ?st] =>
      pose proof (Hcall a c t st) as H; destruct (call1 a c t st) eqn:E end.
    - rewrite <- H by discriminate. intros _; reflexivity.
    - rewrite <- H by discriminate. intros _; reflexivity.
    - intros Hd. now contradiction Hd. }
  destruct (sqf_eq (param_str 0 this) "delete"); [apply Hcall|].
  destruct (sqf_eq (param_str 0 this) "static"); [apply Hcall|].
  destruct (isEqualTo (param_str 1 this) ""); [intros _; reflexivity|].
  apply run_guards_refines. unfold FINALIZE_CLASS, CALLCLASS.
  destruct (_objParentClass _); [apply Hcall|intros _; reflexivity].
Qed.

Lemma call_code_refines (fuel : nat) :
  forall (amb : option string) (c : code) (this : option value) (s : state),
    refines (call_code NAMESPACE registry fuel amb c this s)
            (call_code NAMESPACE registry (S fuel) amb c this s).
Proof.
  induction fuel as [|fuel IH]; intros amb c this s.
  - intros H. now contradiction H.
  - destruct c as [|name id|name].
    + intros _. reflexivity.
    + apply IH.
    + change (refines
        (match registry !! lower name with
         | Some cls => dispatcher NAMESPACE registry (call_code NAMESPACE registry fuel)
                         cls amb this s
         | None => Returned None s
         end)
        (match registry !! lower name with
         | Some cls => dispatcher NAMESPACE registry (call_code NAMESPACE registry (S fuel))
                         cls amb this s
         | None => Returned None s
         end)).
      destruct (registry !! lower name); [|intros _; reflexivity].
      apply dispatcher_refines. exact IH.
Qed.

(** A call that returns with some fuel returns the same with more. *)
Lemma call_code_more_fuel (fuel extra : nat) (amb : option string) (c : code)
    (this : option value) (s s' : state) (r : option value) :
  call_code NAMESPACE registry fuel amb c this s = Returned r s' ->
  call_code NAMESPACE registry (fuel + extra) amb c this s = Returned r s'.
Proof.
  intros H. induction extra as [|extra IH].
  - now rewrite Nat.add_0_r.
  - rewrite Nat.add_succ_r, <- IH. symmetry. apply call_code_refines.
    rewrite IH. discriminate.
Qed.

End Fuel.

(** ** Instance identifiers are member identifiers *)

Lemma has_underscore_app (a b : string) : has_underscore (a +:+ "_" +:+ b) = true.
Proof.
  induction a as [|c a IH]; [reflexivity|].
  rewrite append_cons. simpl. rewrite IH. apply orb_true_r.
Qed.

Lemma format2_is_member_id (a b : string) : is_member_id (format2 a b) = true.
Proof.
  pose proof (has_underscore_app a b) as Hraw.
  pose proof (has_underscore_app (lower a) (lower b)) as Hlow.
  rewrite <- lower_format2 in Hlow. fold (format2 a b) in Hraw.
  unfold is_member_id, isEqualTo.
  rewrite !andb_true_iff, !negb_true_iff, !sqf_eq_false. rewrite String.eqb_neq.
  repeat split; intros E; rewrite E in *; discriminate.
Qed.

(** ** Access levels reached by the control operations *)

Lemma GETCLASS_strip_private (registry : gmap string class) (name : string) :
  GETCLASS (strip_private registry) name = GETCLASS registry name.
Proof.
  unfold GETCLASS, strip_private. rewrite lookup_fmap.
  now destruct (registry !! lower name).
Qed.

Lemma run_guards_no_private (gs : list guard) (l : locals) (s : state) (rest : outcome) :
  _objAccess l <= 1 ->
  run_guards (List.filter (fun g => negb (is_private g)) gs) l s rest = run_guards gs l s rest.
Proof.
  intros Hacc. induction gs as [|g gs IH]; [reflexivity|].
  simpl. destruct (is_private g) eqn:Hp; simpl.
  - assert (guard_cond g l = false) as ->; [|exact IH].
    unfold guard_cond, CHECK_ACCESS, is_private in *.
    destruct (g_access g); try discriminate.
    apply andb_false_intro1. apply Z.leb_gt. simpl. lia.
  - destruct g as [a mb]. unfold guard_cond, guard_body. cbn [g_access g_member].
    now rewrite IH.
Qed.

Section PrivateMembers.

Variable NAMESPACE : space.
Variable registry : gmap string class.

Lemma dispatcher_no_private (call1 call2 : caller) (cls : class) (amb : option string)
    (this : option value) (s : state) :
  (forall amb' c this' s', param_num 3 this' <= 1 ->
     call1 amb' c this' s' = call2 amb' c this' s') ->
  param_num 3 this <= 1 ->
  dispatcher NAMESPACE (strip_private registry) call1 (no_private cls) amb this s =
  dispatcher NAMESPACE registry call2 cls amb this s.
Proof.
  intros Hcall Hacc. unfold dispatcher. cbn [className parentClassName members no_private].
  rewrite !GETCLASS_strip_private.
  destruct (isEqualTo (param_str 0 this) ""); [reflexivity|].
  destruct (sqf_eq (param_str 0 this) "new").
  { destruct (plus_one _); [|reflexivity]. now rewrite Hcall by (cbn; lia). }
  destruct (sqf_eq (param_str 0 this) "delete").
  { apply Hcall. cbn. lia. }
  destruct (sqf_eq (param_str 0 this) "static").
  { apply Hcall. cbn. lia. }
  destruct (isEqualTo (param_str 1 this) ""); [reflexivity|].
  rewrite run_guards_no_private by exact Hacc.
  f_equal. unfold FINALIZE_CLASS, CALLCLASS. cbn [_objParentClass _objClassID _objMember _this].
  destruct (parentClassName cls) as [p|]; [|destruct amb as [p|]]; try reflexivity;
    rewrite GETCLASS_strip_private; apply Hcall; cbn; lia.
Qed.

(** A call whose access level is at most 1 behaves the same whether or not
    the registered classes have their [PRIVATE] members. *)
Lemma low_access_ignores_private (fuel : nat) :
  forall (amb : option string) (c : code) (this : option value) (s : state),
    param_num 3 this <= 1 ->
    call_code NAMESPACE (strip_private registry) fuel amb c this s =
    call_code NAMESPACE registry fuel amb c this s.
Proof.
  induction fuel as [|fuel IH]; intros amb c this s Hacc; [reflexivity|].
  destruct c as [|name id|name]; simpl.
  - reflexivity.
  - rewrite GETCLASS_strip_private. apply IH. cbn. lia.
  - unfold strip_private at 1. rewrite lookup_fmap.
    destruct (registry !! lower name) as [cls|]; [|reflexivity].
    simpl. now apply dispatcher_no_private.
Qed.

End PrivateMembers.

(** ** The control operations *)

Section ControlOperations.

Variable NAMESPACE : space.
Variable registry : gmap string class.

Lemma call_code_obj (fuel : nat) (amb : option string) (name id : string)
    (this : option value) (s : state) :
  call_code NAMESPACE registry (S fuel) amb (CObj name id) this s =
  call_code NAMESPACE registry fuel amb (GETCLASS registry name)
    (member_call id (param_str 0 this) (param 1 this) 0) s.
Proof. reflexivity. Qed.

Lemma dispatcher_new (call : caller) (cls : class) (amb : option string)
    (arg : option value) (s : state) :
  dispatcher NAMESPACE registry call cls amb (new_call arg) s =
  match plus_one (GET_AUTO_INC NAMESPACE (className cls) s) with
  | None => Failed
  | Some n =>
      let s1 := setVariable NAMESPACE (AUTO_INC_VAR (className cls)) (Some n) s in
      let objCode :=
        CObj (className cls)
             (format2 (className cls) (fmt_value (GET_AUTO_INC NAMESPACE (className cls) s1))) in
      match call amb objCode (Some (VArr [Some (VStr CONSTRUCTOR_METHOD); arg])) s1 with
      | Returned _ s2 => Returned (Some (VCode objCode)) s2
      | Failed => Failed
      | Diverged => Diverged
      end
  end.
Proof. now destruct arg. Qed.

Lemma dispatcher_delete (call : caller) (cls : class) (amb : option string)
    (c : code) (arg : option value) (s : state) :
  dispatcher NAMESPACE registry call cls amb (delete_call (Some (VCode c)) arg) s =
  call amb c (Some (VArr [Some (VStr DECONSTRUCTOR_METHOD); arg])) s.
Proof. now destruct arg. Qed.

Lemma dispatcher_static (call : caller) (cls : class) (amb : option string)
    (m : string) (arg : option value) (s : state) :
  dispatcher NAMESPACE registry call cls amb (static_call m arg) s =
  call amb (GETCLASS registry (className cls)) (member_call (className cls) m arg 0) s.
Proof. now destruct arg. Qed.

Lemma GET_AUTO_INC_set (name : string) (v : value) (s : state) :
  GET_AUTO_INC NAMESPACE name (setVariable NAMESPACE (AUTO_INC_VAR name) (Some v) s) = v.
Proof. unfold GET_AUTO_INC. now rewrite getVariable_setVariable_eq. Qed.

(** C5 (amended): ["static"] calls the dispatcher of the class with the
    class name as instance identifier and access level 0; the call behaves
    the same when every registered class loses its [PRIVATE] members, which
    it therefore never runs. *)
Theorem static_uses_public_access (fuel : nat) (call : caller) (cls : class)
    (amb : option string) (name m : string) (arg : option value) (s : state) :
  dispatcher NAMESPACE registry call cls amb (static_call m arg) s =
    call amb (GETCLASS registry (className cls))
      (member_call (className cls) m arg 0) s /\
  call_code NAMESPACE (strip_private registry) fuel amb (CClass name) (static_call m arg) s =
    call_code NAMESPACE registry fuel amb (CClass name) (static_call m arg) s.
Proof.
  split; [apply dispatcher_static|].
  apply low_access_ignores_private. cbn. lia.
Qed.

End ControlOperations.

(** C5, as stated, fails: ["static"] does not reach the private member
    [secret] of [Vault], which a call with access level 2 does reach. *)
Lemma static_cannot_reach_private_cex :
  call_code missionNamespace Vault_registry 3 None (CClass "Vault")
    (static_call "secret" None) empty_state = Returned None empty_state /\
  call_code missionNamespace Vault_registry 3 None (CClass "Vault")
    (member_call "Vault" "secret" None 2) empty_state =
    Returned (Some (VNum 42)) empty_state.
Proof. split; vm_compute; reflexivity. Qed.



(** ** A hierarchy with a base class declared by [CLASS] *)

(** [Child] is instantiated through the constructor it inherits, and a
    member it does not declare is found in [Parent]. *)
Example Child_inherits :
  call_code missionNamespace Child_registry 5 None (CClass "Child") (new_call None)
    empty_state =
    Returned (Some (VCode (CObj "Child" "Child_1")))
      (setVariable missionNamespace "Child_IDAI" (Some (VNum 1)) empty_state) /\
  call_code missionNamespace Child_registry 5 None (CObj "Child" "Child_1")
    (Some (VStr "name")) empty_state = Returned (Some (VStr "parent")) empty_state.
Proof. split; vm_compute; reflexivity. Qed.

Lemma Child_unmatched_never_returns (m : string) (arg : option value) (acc : Z)
    (fuel : nat) (s : state) :
  m <> "" ->
  Forall (fun g => sqf_eq m (g_name g) = false) (members Child ++ members Parent) ->
  call_code missionNamespace Child_registry fuel None (CClass "Child")
    (member_call "Child_1" m arg acc) s = Diverged.
Proof.
  intros Hm Hall. apply List.Forall_app in Hall as [Hc Hp].
  destruct fuel as [|fuel]; [reflexivity|].
  rewrite (call_code_class _ _ _ _ _ Child) by reflexivity.
  rewrite (forward_to_parent _ _ _ _ _ _ _ "Parent"); try reflexivity; try assumption.
  - rewrite (GETCLASS_registered _ _ Parent) by reflexivity.
    apply (base_class_reforwards _ _ _ Parent); try reflexivity; try assumption.
    eapply List.Forall_impl; [|exact Hp]. intros g Hg. now apply guard_cond_other_name.
  - eapply List.Forall_impl; [|exact Hc]. intros g Hg. now apply guard_cond_other_name.
Qed.

(** C3, failing input: [Child] extends [Parent] and neither declares a member
    [update].  The call of [update] through an instance handle of [Child] is
    forwarded to [Parent] with access level 1, and [Parent] then forwards it
    to itself without end: with no amount of fuel does the call return nil. *)
Theorem unmatched_call_in_hierarchy_never_returns (fuel : nat) (s : state) :
  call_code missionNamespace Child_registry fuel None (CObj "Child" "Child_1")
    (Some (VStr "update")) s = Diverged.
Proof.
  destruct fuel as [|fuel]; [reflexivity|].
  rewrite call_code_obj, (GETCLASS_registered _ _ Child) by reflexivity.
  apply Child_unmatched_never_returns; [discriminate|].
  repeat constructor.
Qed.

(** C8, failing input: ["delete"] of an instance of [Child] calls the
    deconstructor, which no class of the hierarchy declares; the unmatched
    call reaches [Parent] and is forwarded there without end, so the result
    is not nil. *)
Theorem delete_without_deconstructor_never_returns (fuel : nat) (s : state) :
  call_code missionNamespace Child_registry fuel None (CClass "Child")
    (delete_call (Some (VCode (CObj "Child" "Child_1"))) None) s = Diverged.
Proof.
  destruct fuel as [|fuel]; [reflexivity|].
  rewrite (call_code_class _ _ _ _ _ Child), dispatcher_delete by reflexivity.
  destruct fuel as [|fuel]; [reflexivity|].
  rewrite call_code_obj, (GETCLASS_registered _ _ Child) by reflexivity.
  apply Child_unmatched_never_returns; [discriminate|].
  repeat constructor.
Qed.

(** ** The instance counter *)

Lemma run_guards_returned (gs : list guard) (l : locals) (s : state) (rest : outcome)
    (r : option value) (s' : state) :
  run_guards gs l s rest = Returned r s' ->
  rest = Returned r s' \/ exists g, In g gs /\ guard_body g l s = Returned r s'.
Proof.
  induction gs as [|g gs IH]; simpl; [auto|].
  destruct (guard_cond g l).
  - intros H. right. exists g. auto.
  - intros H. destruct (IH H) as [?|(g' & Hin & Hb)]; [auto|].
    right. exists g'. auto.
Qed.

Section Counter.

Variable NAMESPACE : space.
Variable registry : gmap string class.
Variable name : string.
Hypothesis Hkeeps : keeps_counter NAMESPACE registry name.

Lemma counter_le_refl (s : state) : counter_le NAMESPACE name s s.
Proof. intros z Hz H0. exists z. split; [exact Hz|lia]. Qed.

Lemma counter_le_trans (s1 s2 s3 : state) :
  counter_le NAMESPACE name s1 s2 -> counter_le NAMESPACE name s2 s3 ->
  counter_le NAMESPACE name s1 s3.
Proof.
  intros H12 H23 z Hz H0. destruct (H12 z Hz H0) as (z2 & Hz2 & ?).
  destruct (H23 z2 Hz2) as (z3 & Hz3 & ?); [lia|]. exists z3. split; [exact Hz3|lia].
Qed.

Lemma counter_le_same (s s' : state) :
  getVariable NAMESPACE (AUTO_INC_VAR name) s' = getVariable NAMESPACE (AUTO_INC_VAR name) s ->
  counter_le NAMESPACE name s s'.
Proof.
  intros H z Hz H0. exists z. unfold GET_AUTO_INC in *. rewrite H. split; [exact Hz|lia].
Qed.

(** Incrementing the counter of any class does not lower the counter of
    [name]. *)
Lemma counter_le_increment (other : string) (n : value) (s : state) :
  plus_one (GET_AUTO_INC NAMESPACE other s) = Some n ->
  counter_le NAMESPACE name s (setVariable NAMESPACE (AUTO_INC_VAR other) (Some n) s).
Proof.
  intros Hn.
  destruct (decide (lower (AUTO_INC_VAR other) = lower (AUTO_INC_VAR name))) as [He|Hne].
  - intros z Hz H0.
    assert (GET_AUTO_INC NAMESPACE other s = VNum z) as Ho.
    { unfold GET_AUTO_INC, getVariable in *. now rewrite He. }
    rewrite Ho in Hn. injection Hn as <-.
    exists (round32 (z + 1)). split.
    + unfold GET_AUTO_INC. now rewrite getVariable_setVariable_eq.
    + destruct (Z_lt_le_dec (z + 1) 16777216) as [Hlt|Hge].
      * rewrite round32_small by lia. lia.
      * pose proof (round32_large _ Hge). lia.
  - apply counter_le_same. apply getVariable_setVariable_ne. now right.
Qed.

Lemma guard_body_counter_le (k : string) (cls : class) (g : guard) (l : locals)
    (s s' : state) (r : option value) :
  registry !! k = Some cls -> In g (members cls) ->
  guard_body g l s = Returned r s' -> counter_le NAMESPACE name s s'.
Proof.
  intros Hreg Hin Hbody. specialize (Hkeeps k cls g Hreg Hin).
  unfold guard_body in Hbody. destruct (g_member g) as [t n body|static sp t n].
  - apply counter_le_same. eapply Hkeeps. exact Hbody.
  - assert (Hvar : forall key,
              (sp = NAMESPACE -> lower key <> lower (AUTO_INC_VAR name)) ->
              match _this l with
              | None => Returned (getVariable sp key s) s
              | Some v => Returned None (setVariable sp key (Some v) s)
              end = Returned r s' -> counter_le NAMESPACE name s s').
    { intros key Hkey H. destruct (_this l) as [v|].
      - assert (s' = setVariable sp key (Some v) s) as -> by congruence.
        apply counter_le_same. apply getVariable_setVariable_ne.
        destruct (decide (sp = NAMESPACE)); [right|left]; auto.
      - assert (s' = s) as -> by congruence. apply counter_le_refl. }
    destruct static; (eapply Hvar; [|exact Hbody]); intros Hsp; now apply Hkeeps.
Qed.

Lemma dispatcher_counter_le (call : caller) (k : string) (cls : class)
    (amb : option string) (this : option value) (s s' : state) (r : option value) :
  registry !! k = Some cls ->
  (forall amb' c this' s1 s2 r', call amb' c this' s1 = Returned r' s2 ->
     counter_le NAMESPACE name s1 s2) ->
  dispatcher NAMESPACE registry call cls amb this s = Returned r s' ->
  counter_le NAMESPACE name s s'.
Proof.
  intros Hreg Hcall. unfold dispatcher.
  destruct (isEqualTo (param_str 0 this) "").
  { intros [= _ <-]. apply counter_le_refl. }
  destruct (sqf_eq (param_str 0 this) "new").
  { destruct (plus_one _) as [n|] eqn:Hn; [|discriminate].
    destruct (call _ _ _ _) as [r' s2| |] eqn:Hc; try discriminate.
    intros [= _ <-]. eapply counter_le_trans.
    - apply counter_le_increment. exact Hn.
    - eapply Hcall. exact Hc. }
  destruct (sqf_eq (param_str 0 this) "delete"); [apply Hcall|].
  destruct (sqf_eq (param_str 0 this) "static"); [apply Hcall|].
  destruct (isEqualTo (param_str 1 this) "").
  { intros [= _ <-]. apply counter_le_refl. }
  intros [Hfin|(g & Hin & Hb)]%run_guards_returned.
  - unfold FINALIZE_CLASS, CALLCLASS in Hfin. cbn [_objParentClass] in Hfin.
    destruct (match parentClassName cls with Some p => Some p | None => amb end).
    + eapply Hcall. exact Hfin.
    + injection Hfin as _ <-. apply counter_le_refl.
  - eapply guard_body_counter_le; eassumption.
Qed.

(** No call lowers the counter, provided it returns. *)
Lemma call_code_counter_le (fuel : nat) :
  forall (amb : option string) (c : code) (this : option value) (s s' : state)
         (r : option value),
    call_code NAMESPACE registry fuel amb c this s = Returned r s' ->
    counter_le NAMESPACE name s s'.
Proof.
  induction fuel as [|fuel IH]; intros amb c this s s' r; [discriminate|].
  destruct c as [|cn id|cn]; simpl.
  - intros [= _ <-]. apply counter_le_refl.
  - apply IH.
  - destruct (registry !! lower cn) as [cls|] eqn:Hreg.
    + eapply dispatcher_counter_le; [exact Hreg|exact IH].
    + intros [= _ <-]. apply counter_le_refl.
Qed.

Lemma run_calls_counter_le (cs : list invocation) :
  forall s s', run_calls NAMESPACE registry cs s = Some s' ->
    counter_le NAMESPACE name s s'.
Proof.
  induction cs as [|c cs IH]; intros s s'; simpl.
  - intros [= <-]. apply counter_le_refl.
  - destruct (call_code _ _ _ _ _ _ _) as [r s1| |] eqn:Hc; try discriminate.
    intros H. eapply counter_le_trans; [|apply IH; exact H].
    eapply call_code_counter_le. exact Hc.
Qed.

End Counter.

(** ** Fresh instance identifiers *)

Lemma drop_chars_append (a b : string) : drop_chars (String.length a) (a +:+ b) = b.
Proof. induction a as [|c a IH]; [now destruct b|]. rewrite append_cons. exact IH. Qed.

(** A key [id_v] differs from a name [k] that does not end in [_v]. *)
Lemma format2_ne_by_suffix (id v k : string) :
  drop_chars (String.length k - S (String.length (lower v))) k <> "_" +:+ lower v ->
  lower (format2 id v) <> k.
Proof.
  intros Hk E. apply Hk. rewrite <- E, lower_format2.
  rewrite length_append. change (String.length ("_" +:+ lower v)) with (S (String.length (lower v))).
  replace (String.length (lower id) + S (String.length (lower v)) - S (String.length (lower v)))%nat
    with (String.length (lower id)) by lia.
  apply drop_chars_append.
Qed.

Lemma format2_inj_r (a b c : string) : format2 a b = format2 a c -> b = c.
Proof. unfold format2. intros H. now do 2 apply String.app_inj in H. Qed.

Section FreshIdentifiers.

Variable NAMESPACE : space.
Variable registry : gmap string class.

(** What a returning ["new"] did: the counter held a scalar [z], the handle
    carries the rounded [z + 1], and the counter was not lowered after it was
    set to that. *)
Lemma new_returned (fuel : nat) (amb : option string) (cname : string) (cls : class)
    (arg : option value) (s s' : state) (r : option value) :
  keeps_counter NAMESPACE registry (className cls) ->
  registry !! lower cname = Some cls ->
  call_code NAMESPACE registry fuel amb (CClass cname) (new_call arg) s = Returned r s' ->
  exists z,
    GET_AUTO_INC NAMESPACE (className cls) s = VNum z /\
    r = Some (VCode (CObj (className cls)
                       (format2 (className cls) (fmt_num (round32 (z + 1)))))) /\
    (0 <= round32 (z + 1) ->
     exists z', GET_AUTO_INC NAMESPACE (className cls) s' = VNum z' /\
                Z.min (round32 (z + 1)) 16777216 <= z').
Proof.
  intros Hkeeps Hreg. destruct fuel as [|fuel]; [discriminate|].
  rewrite (call_code_class _ _ _ _ _ _ _ _ Hreg), dispatcher_new.
  destruct (GET_AUTO_INC NAMESPACE (className cls) s) as [z| | | | |] eqn:Hz;
    try discriminate.
  cbn [plus_one]. cbv zeta. rewrite GET_AUTO_INC_set. cbn [fmt_value].
  destruct (call_code _ _ _ _ _ _ _) as [r' s2| |] eqn:Hc; try discriminate.
  intros [= <- <-].
  exists z. repeat split.
  apply (call_code_counter_le _ _ _ Hkeeps _ _ _ _ _ _ _ Hc). apply GET_AUTO_INC_set.
Qed.

(** ["new"] returns the handle as soon as the constructor call returns. *)
Lemma new_returns (fuel : nat) (amb : option string) (cname : string) (cls : class)
    (arg : option value) (z : Z) (s s' : state) (r : option value) :
  registry !! lower cname = Some cls ->
  GET_AUTO_INC NAMESPACE (className cls) s = VNum z ->
  call_code NAMESPACE registry fuel amb
    (CObj (className cls) (format2 (className cls) (fmt_num (round32 (z + 1)))))
    (Some (VArr [Some (VStr CONSTRUCTOR_METHOD); arg]))
    (setVariable NAMESPACE (AUTO_INC_VAR (className cls))
       (Some (VNum (round32 (z + 1)))) s) =
    Returned r s' ->
  call_code NAMESPACE registry (S fuel) amb (CClass cname) (new_call arg) s =
    Returned
      (Some (VCode (CObj (className cls)
                      (format2 (className cls) (fmt_num (round32 (z + 1)))))))
      s'.
Proof.
  intros Hreg Hz Hc.
  rewrite (call_code_class _ _ _ _ _ _ _ _ Hreg), dispatcher_new, Hz.
  cbn [plus_one]. cbv zeta. rewrite GET_AUTO_INC_set. cbn [fmt_value]. now rewrite Hc.
Qed.


End FreshIdentifiers.

(** A variable body on a key other than the counter's leaves the counter. *)
Lemma MEMBER_variable_keeps (name : string) (static : bool) (varName : string)
    (l : locals) (arg : option value) (s s' : state) (r : option value) :
  (forall id, lower (format2 id varName) <> lower (AUTO_INC_VAR name)) ->
  MEMBER_variable static missionNamespace varName l arg s = Returned r s' ->
  getVariable missionNamespace (AUTO_INC_VAR name) s' =
  getVariable missionNamespace (AUTO_INC_VAR name) s.
Proof.
  intros Hkey. unfold MEMBER_variable, SVAR_DFT_FUNC, VAR_DFT_FUNC.
  destruct static, arg as [v|]; cbn [_this]; intros H;
    try (assert (s' = s) as -> by congruence; reflexivity);
    match type of H with Returned _ ?st = _ => assert (s' = st) as -> by congruence end;
    apply getVariable_setVariable_ne; right; apply Hkey.
Qed.

Lemma PlayerInfo_keeps_counter :
  keeps_counter missionNamespace PlayerInfo_registry (className PlayerInfo).
Proof.
  assert (Hkey : forall v, v = "unitCount" \/ v = "currentUnit" ->
            forall id, lower (format2 id v) <> lower (AUTO_INC_VAR (className PlayerInfo))).
  { intros v [-> | ->] id; apply format2_ne_by_suffix; vm_compute; discriminate. }
  intros k cls g Hreg Hin.
  unfold PlayerInfo_registry in Hreg.
  apply lookup_insert_Some in Hreg as [[_ <-]|[_ Hreg]]; [|now rewrite lookup_empty in Hreg].
  unfold PlayerInfo, CLASS in Hin. cbn [members In] in Hin.
  destruct Hin as [<-|[<-|[<-|[<-|[<-|[<-|[]]]]]]];
    cbn [g_member STATIC_VARIABLE VARIABLE].
  - intros _. apply Hkey. auto.
  - intros _. apply Hkey. auto.
  - intros l s r s'. unfold PlayerInfo_constructor, and_then.
    destruct (MEMBER_variable false _ _ _ _ s) as [r1 s1| |] eqn:H1; try discriminate.
    destruct (MEMBER_variable true _ _ _ None s1) as [r2 s2| |] eqn:H2; try discriminate.
    destruct (plus_one _) as [n|]; try discriminate. intros H3.
    apply (MEMBER_variable_keeps (className PlayerInfo)) in H1, H2, H3; auto. congruence.
  - intros l s r s' H. apply (MEMBER_variable_keeps (className PlayerInfo)) in H; auto.
  - intros l s r s' H. apply (MEMBER_variable_keeps (className PlayerInfo)) in H; auto.
  - intros l s r s'. unfold PlayerInfo_deconstructor, and_then.
    destruct (MEMBER_variable true _ _ _ None _) as [r2 s2| |] eqn:H2; try discriminate.
    destruct (minus_one _) as [n|]; try discriminate.
    destruct (MEMBER_variable true _ _ _ (Some n) s2) as [r3 s3| |] eqn:H3; try discriminate.
    intros [= _ <-].
    apply (MEMBER_variable_keeps (className PlayerInfo)) in H2, H3; auto. rewrite H3, H2.
    unfold VAR_DELETE. apply getVariable_setVariable_ne. right. apply Hkey. auto.
Qed.



(** ** Static and instance variables *)

Section Variables.

Variable NAMESPACE : space.
Variable registry : gmap string class.

(** A call of a variable member that no earlier guard shadows runs the
    variable's body. *)
Lemma variable_member_call (call : caller) (cls : class) (amb : option string)
    (pre post : list guard) (a : access) (static : bool) (sp : space)
    (typeStr varName m id : string) (arg : option value) (acc : Z) (s : state) :
  members cls = pre ++ Guard a (VAR static sp typeStr varName) :: post ->
  Forall (fun g => sqf_eq m (g_name g) = false) pre ->
  sqf_eq m varName = true -> m <> "" -> is_member_id id = true ->
  lvl a <= acc ->
  match arg with
  | Some v => sqf_eq (typeName v) typeStr || sqf_eq typeStr "ANY" = true
  | None => True
  end ->
  dispatcher NAMESPACE registry call cls amb (member_call id m arg acc) s =
  guard_body (Guard a (VAR static sp typeStr varName)) (locals_of cls amb id m arg acc) s.
Proof.
  intros Hms Hpre Hname Hm Hid Hacc Hty.
  rewrite dispatcher_member_call, Hms by assumption.
  rewrite run_guards_skip.
  - apply run_guards_hit. unfold guard_cond, CHECK_ACCESS, CHECK_VAR, CHECK_MEMBER,
      CHECK_TYPE, CHECK_NIL. cbn [g_access g_member locals_of _objAccess _objMember _objArgType].
    rewrite Hname. replace (lvl a <=? acc)%Z with true by (symmetry; apply Z.leb_le; lia).
    destruct arg as [v|]; [now rewrite Hty|]. simpl. apply orb_true_r.
  - eapply List.Forall_impl; [|exact Hpre]. intros g Hg. now apply guard_cond_other_name.
Qed.

(** C7: a static variable member is stored under the key made from the
    class name, so a value written through one instance identifier is what
    a read through any other instance identifier of the class returns; a
    non-static variable member is stored under the key made from the instance
    identifier, so the write is read back through the same identifier and
    leaves what another identifier reads as it was. *)
Theorem static_variable_shared (call : caller) (cls : class) (amb : option string)
    (pre post : list guard) (a : access) (static : bool) (sp : space)
    (typeStr varName m idA idB : string) (v : value) (accA accB : Z) (s : state) :
  members cls = pre ++ Guard a (VAR static sp typeStr varName) :: post ->
  Forall (fun g => sqf_eq m (g_name g) = false) pre ->
  sqf_eq m varName = true -> m <> "" ->
  sqf_eq (typeName v) typeStr || sqf_eq typeStr "ANY" = true ->
  is_member_id idA = true -> is_member_id idB = true ->
  lvl a <= accA -> lvl a <= accB ->
  let key := fun id => format2 (if static then className cls else id) varName in
  let s1 := setVariable sp (key idA) (Some v) s in
  dispatcher NAMESPACE registry call cls amb (member_call idA m (Some v) accA) s =
    Returned None s1 /\
  dispatcher NAMESPACE registry call cls amb (member_call idA m None accA) s1 =
    Returned (Some v) s1 /\
  (static = true ->
   dispatcher NAMESPACE registry call cls amb (member_call idB m None accB) s1 =
     Returned (Some v) s1) /\
  (static = false -> lower idA <> lower idB ->
   dispatcher NAMESPACE registry call cls amb (member_call idB m None accB) s1 =
     Returned (getVariable sp (key idB) s) s1).
Proof.
  intros Hms Hpre Hname Hm Hty HidA HidB HaccA HaccB key s1.
  rewrite !(variable_member_call _ _ _ _ _ _ _ _ _ _ _ _ _ _ _ Hms Hpre Hname Hm)
    by (assumption || exact I).
  subst key s1. destruct static; cbn -[getVariable setVariable];
    unfold GETVAR, GETSVAR; cbn -[getVariable setVariable];
    rewrite !getVariable_setVariable_eq by reflexivity.
  - repeat split; intros; congruence.
  - repeat split; try congruence. intros _ Hne.
    rewrite getVariable_setVariable_ne; [reflexivity|].
    right. intros E. apply Hne. eapply format2_key_inj. exact E.
Qed.

End Variables.

(** ** Instances of the theorems on the example classes *)

Lemma first_match_wins_witness :
  dispatcher missionNamespace ∅ (fun _ _ _ _ => Failed) Shape None
    (member_call "Shape_1" "scale" (Some (VNum 2)) 0) empty_state =
  Returned (Some (VStr "by number")) empty_state.
Proof.
  apply (first_match_wins missionNamespace ∅ (fun _ _ _ _ => Failed) Shape None
           "Shape_1" "scale" (Some (VNum 2)) 0 empty_state [] [] []
           (Guard PUBLIC (FUNCTION "scalar" "scale"
              (fun _ s => Returned (Some (VStr "by number")) s)))
           (Guard PUBLIC (FUNCTION "ANY" "scale"
              (fun _ s => Returned (Some (VStr "by anything")) s))));
    reflexivity || discriminate || constructor.
Defined.


Lemma empty_id_or_member_returns_nil_witness :
  dispatcher missionNamespace PlayerInfo_registry (fun _ _ _ _ => Failed) PlayerInfo None
    (Some (VArr [Some (VStr ""); Some (VStr "getUnit")])) empty_state =
    Returned None empty_state /\
  dispatcher missionNamespace PlayerInfo_registry (fun _ _ _ _ => Failed) PlayerInfo None
    (member_call "PlayerInfo_1" "" None 2) empty_state = Returned None empty_state.
Proof.
  split; apply empty_id_or_member_returns_nil; [left|right; split]; reflexivity.
Defined.

Lemma static_variable_shared_witness :
  let s1 := setVariable missionNamespace "PlayerInfo_unitCount" (Some (VNum 3)) empty_state in
  let s2 := setVariable missionNamespace "PlayerInfo_1_currentUnit" (Some (VOther "OBJECT" 7))
              empty_state in
  let call := fun _ _ _ _ => Failed in
  (dispatcher missionNamespace PlayerInfo_registry call PlayerInfo None
     (member_call "PlayerInfo_1" "unitCount" (Some (VNum 3)) 2) empty_state = Returned None s1 /\
   dispatcher missionNamespace PlayerInfo_registry call PlayerInfo None
     (member_call "PlayerInfo_2" "unitCount" None 2) s1 = Returned (Some (VNum 3)) s1) /\
  (dispatcher missionNamespace PlayerInfo_registry call PlayerInfo None
     (member_call "PlayerInfo_1" "currentUnit" (Some (VOther "OBJECT" 7)) 2) empty_state =
     Returned None s2 /\
   dispatcher missionNamespace PlayerInfo_registry call PlayerInfo None
     (member_call "PlayerInfo_2" "currentUnit" None 2) s2 = Returned None s2).
Proof.
  intros s1 s2 call. split.
  - destruct (static_variable_shared missionNamespace PlayerInfo_registry call PlayerInfo None
                [] (List.tl (members PlayerInfo)) PRIVATE true missionNamespace
                "scalar" "unitCount" "unitCount" "PlayerInfo_1" "PlayerInfo_2" (VNum 3) 2 2
                empty_state eq_refl (List.Forall_nil _) eq_refl ltac:(discriminate) eq_refl
                eq_refl eq_refl ltac:(simpl; lia) ltac:(simpl; lia)) as (Hw & _ & Hr & _).
    split; [exact Hw|exact (Hr eq_refl)].
  - destruct (static_variable_shared missionNamespace PlayerInfo_registry call PlayerInfo None
                [List.hd (Guard PUBLIC (VAR true uiNamespace "" "")) (members PlayerInfo)]
                (List.tl (List.tl (members PlayerInfo))) PRIVATE false missionNamespace
                "object" "currentUnit" "currentUnit" "PlayerInfo_1" "PlayerInfo_2"
                (VOther "OBJECT" 7) 2 2 empty_state eq_refl
                ltac:(repeat constructor) eq_refl ltac:(discriminate)
                eq_refl eq_refl eq_refl ltac:(simpl; lia) ltac:(simpl; lia))
      as (Hw & _ & _ & Hr).
    split; [exact Hw|]. apply (Hr eq_refl). vm_compute. discriminate.
Defined.

(** ** The examples, run *)

(** The script of the header: the two instances of [PlayerInfo] get the
    identifiers [PlayerInfo_1] and [PlayerInfo_2], also with the first one
    deleted in between, and [getUnit] reads the unit of the instance. *)
Example PlayerInfo_script :
  outcome_value first_new = Some (VCode (CObj "PlayerInfo" "PlayerInfo_1")) /\
  outcome_value second_new = Some (VCode (CObj "PlayerInfo" "PlayerInfo_2")) /\
  call_each PlayerInfo_registry [CObj "PlayerInfo" "PlayerInfo_2"] (Some (VStr "getUnit"))
    (outcome_state second_new) = [Some (VOther "OBJECT" 2)].
Proof. repeat split; vm_compute; reflexivity. Qed.

(** Two instances of [Counter] count together: [increment] through the
    first, the second and the first again returns 1, 2 and 3. *)
Example Counter_shared :
  call_each Counter_registry
    [CObj "Counter" "Counter_1"; CObj "Counter" "Counter_2"; CObj "Counter" "Counter_1"]
    (Some (VStr "increment")) empty_state =
  [Some (VNum 1); Some (VNum 2); Some (VNum 3)].
Proof. vm_compute. reflexivity. Qed.

(** * Further properties of the dispatcher *)

(** ** Access levels *)

Lemma run_guards_all_public (gs : list guard) (l : locals) (s : state) (rest : outcome) :
  2 <= _objAccess l ->
  run_guards (List.map (fun g => Guard PUBLIC (g_member g)) gs) l s rest =
  run_guards gs l s rest.
Proof.
  intros Hacc. induction gs as [|g gs IH]; [reflexivity|].
  simpl. rewrite IH. unfold guard_cond, guard_body, CHECK_ACCESS. cbn [g_access g_member].
  replace (lvl PUBLIC <=? _objAccess l)%Z with true by (symmetry; apply Z.leb_le; simpl; lia).
  replace (lvl (g_access g) <=? _objAccess l)%Z with true; [reflexivity|].
  symmetry. apply Z.leb_le. destruct (g_access g); simpl; lia.
Qed.

Lemma run_guards_only_public (gs : list guard) (l : locals) (s : state) (rest : outcome) :
  _objAccess l <= 0 ->
  run_guards (List.filter is_public gs) l s rest = run_guards gs l s rest.
Proof.
  intros Hacc. induction gs as [|g gs IH]; [reflexivity|].
  simpl. destruct (is_public g) eqn:Hp; simpl.
  - destruct g as [a mb]. unfold guard_cond, guard_body. cbn [g_access g_member].
    now rewrite IH.
  - assert (guard_cond g l = false) as ->; [|exact IH].
    unfold guard_cond, CHECK_ACCESS, is_public in *.
    destruct (g_access g); try discriminate;
      apply andb_false_intro1; apply Z.leb_gt; simpl; lia.
Qed.

Section AccessLevels.

Variable NAMESPACE : space.
Variable registry : gmap string class.

(** At access level 0 the class behaves as its [PUBLIC] members alone. *)
Lemma dispatcher_only_public (call : caller) (cls : class) (amb : option string)
    (this : option value) (s : state) :
  param_num 3 this <= 0 ->
  dispatcher NAMESPACE registry call (only_public cls) amb this s =
  dispatcher NAMESPACE registry call cls amb this s.
Proof.
  intros Hacc. unfold dispatcher. cbn [className parentClassName members only_public].
  destruct (isEqualTo (param_str 0 this) ""); [reflexivity|].
  destruct (sqf_eq (param_str 0 this) "new"); [reflexivity|].
  destruct (sqf_eq (param_str 0 this) "delete"); [reflexivity|].
  destruct (sqf_eq (param_str 0 this) "static"); [reflexivity|].
  destruct (isEqualTo (param_str 1 this) ""); [reflexivity|].
  now rewrite run_guards_only_public by exact Hacc.
Qed.


(** X2: the access level is the fourth element of the argument array; a
    call that passes 2 or more there is dispatched as if every member of the
    class were [PUBLIC]. *)
Theorem full_access_ignores_modifiers (call : caller) (cls : class) (amb : option string)
    (this : option value) (s : state) :
  2 <= param_num 3 this ->
  dispatcher NAMESPACE registry call cls amb this s =
  dispatcher NAMESPACE registry call (all_public cls) amb this s.
Proof.
  intros Hacc. unfold dispatcher. cbn [className parentClassName members all_public].
  destruct (isEqualTo (param_str 0 this) ""); [reflexivity|].
  destruct (sqf_eq (param_str 0 this) "new"); [reflexivity|].
  destruct (sqf_eq (param_str 0 this) "delete"); [reflexivity|].
  destruct (sqf_eq (param_str 0 this) "static"); [reflexivity|].
  destruct (isEqualTo (param_str 1 this) ""); [reflexivity|].
  now rewrite run_guards_all_public by exact Hacc.
Qed.

(** X3: a child of a class that is not registered: a call that matches no
    guard of the child is passed to [{nil}] and returns nil, the state as it
    was. *)
Theorem unregistered_parent_returns_nil (fuel : nat) (cls : class) (amb : option string)
    (id m parent : string) (arg : option value) (acc : Z) (s : state) :
  is_member_id id = true -> m <> "" ->
  parentClassName cls = Some parent ->
  registry !! lower parent = None ->
  Forall (fun g => guard_cond g (locals_of cls amb id m arg acc) = false) (members cls) ->
  dispatcher NAMESPACE registry (call_code NAMESPACE registry (S fuel)) cls amb
    (member_call id m arg acc) s = Returned None s.
Proof.
  intros Hid Hm Hp Hreg Hall.
  rewrite (forward_to_parent _ _ _ _ _ _ _ parent) by assumption.
  now apply missing_class_returns_nil.
Qed.

(** X4: a call whose present argument has a type that no guard of the called
    member accepts matches nothing; with no parent class in scope it returns
    nil and stores nothing, without an error. *)
Theorem mistyped_call_is_dropped (call : caller) (cls : class) (id m : string)
    (v : value) (acc : Z) (s : state) :
  is_member_id id = true -> m <> "" ->
  parentClassName cls = None ->
  (forall g, In g (members cls) -> sqf_eq m (g_name g) = true ->
     sqf_eq (typeName v) (g_type g) = false /\ sqf_eq (g_type g) "ANY" = false) ->
  typeName v <> "" ->
  dispatcher NAMESPACE registry call cls None (member_call id m (Some v) acc) s =
    Returned None s.
Proof.
  intros Hid Hm Hp Hty Hv.
  apply unmatched_without_parent; try assumption.
  apply List.Forall_forall. intros g Hg.
  destruct (guard_cond g (locals_of cls None id m (Some v) acc)) eqn:Hc; [exfalso|reflexivity].
  pose proof (guard_cond_name _ _ Hc) as Hn. cbn in Hn.
  destruct (Hty g Hg Hn) as [H1 H2].
  unfold guard_cond, g_type, CHECK_VAR, CHECK_TYPE, CHECK_NIL in *.
  cbn [locals_of _objArgType] in Hc.
  assert (sqf_eq (typeName v) "" = false) as Hnil.
  { apply sqf_eq_false. intros E. apply Hv.
    destruct (typeName v); [reflexivity|discriminate]. }
  destruct (g_member g); rewrite H1, H2, ?Hnil in Hc; simpl in Hc;
    rewrite ?andb_false_r in Hc; discriminate.
Qed.

End AccessLevels.

(** ** Inherited members *)

Lemma variable_guard_cond (a : access) (static : bool) (sp : space)
    (typeStr varName : string) (cls : class) (amb : option string) (id m : string)
    (arg : option value) (acc : Z) :
  sqf_eq m varName = true -> lvl a <= acc -> fits typeStr arg ->
  guard_cond (Guard a (VAR static sp typeStr varName)) (locals_of cls amb id m arg acc) = true.
Proof.
  intros Hname Hacc Hty.
  unfold guard_cond, CHECK_ACCESS, CHECK_VAR, CHECK_MEMBER, CHECK_TYPE, CHECK_NIL.
  cbn [g_access g_member locals_of _objAccess _objMember _objArgType].
  rewrite Hname. replace (lvl a <=? acc)%Z with true by (symmetry; apply Z.leb_le; lia).
  destruct arg as [v|]; [simpl in Hty; now rewrite Hty|]. simpl. apply orb_true_r.
Qed.

Section Inheritance.

Variable NAMESPACE : space.
Variable registry : gmap string class.

(** A call that the child does not match and the parent does. *)
Lemma forwarded_call (fuel : nat) (cls pcls : class) (amb : option string)
    (id m parent : string) (arg : option value) (acc : Z) (s : state)
    (pre post : list guard) (g : guard) :
  is_member_id id = true -> m <> "" ->
  parentClassName cls = Some parent ->
  registry !! lower parent = Some pcls ->
  Forall (fun g' => guard_cond g' (locals_of cls amb id m arg acc) = false) (members cls) ->
  members pcls = pre ++ g :: post ->
  Forall (fun g' => guard_cond g' (locals_of pcls (Some parent) id m arg 1) = false) pre ->
  guard_cond g (locals_of pcls (Some parent) id m arg 1) = true ->
  dispatcher NAMESPACE registry (call_code NAMESPACE registry (S fuel)) cls amb
    (member_call id m arg acc) s =
  guard_body g (locals_of pcls (Some parent) id m arg 1) s.
Proof.
  intros Hid Hm Hp Hreg Hall Hms Hpre Hg.
  rewrite (forward_to_parent _ _ _ _ _ _ _ parent) by assumption.
  rewrite (GETCLASS_registered _ _ _ Hreg), (call_code_class _ _ _ _ _ _ _ _ Hreg).
  rewrite dispatcher_member_call, Hms, run_guards_skip by assumption.
  now apply run_guards_hit.
Qed.

(** X5: a member that the child class does not declare and the parent does
    is run with the instance identifier of the call, access level 1 whatever
    level the caller had, and the parent's class name as [_objClass]; the
    member that runs is never a [PRIVATE] one. *)
Theorem inherited_member_runs_as_parent (fuel : nat) (cls pcls : class)
    (amb : option string) (id m parent : string) (arg : option value) (acc : Z)
    (s : state) (pre post : list guard) (g : guard) :
  is_member_id id = true -> m <> "" ->
  parentClassName cls = Some parent ->
  registry !! lower parent = Some pcls ->
  Forall (fun g' => sqf_eq m (g_name g') = false) (members cls ++ pre) ->
  members pcls = pre ++ g :: post ->
  guard_cond g (locals_of pcls (Some parent) id m arg 1) = true ->
  g_access g <> PRIVATE /\
  dispatcher NAMESPACE registry (call_code NAMESPACE registry (S fuel)) cls amb
    (member_call id m arg acc) s =
  guard_body g
    (mkLocals id m arg 1 (match arg with None => "" | Some v => typeName v end)
       (className pcls)
       (match parentClassName pcls with Some p => Some p | None => Some parent end)) s.
Proof.
  intros Hid Hm Hp Hreg Hall Hms Hg.
  apply List.Forall_app in Hall as [Hc Hpre].
  split.
  - apply guard_cond_access in Hg. cbn in Hg. intros E. rewrite E in Hg. simpl in Hg. lia.
  - apply (forwarded_call fuel cls pcls amb id m parent arg acc s pre post g); try assumption.
    + eapply List.Forall_impl; [|exact Hc]. intros g' Hg'. now apply guard_cond_other_name.
    + eapply List.Forall_impl; [|exact Hpre]. intros g' Hg'. now apply guard_cond_other_name.
Qed.

(** X6: a variable member inherited from the parent class is stored under
    the parent's class name when it is static, so all instances of the parent
    and of its children share it, and under the instance identifier when it
    is not. *)
Theorem inherited_variable_key (fuel : nat) (cls pcls : class) (amb : option string)
    (id m parent : string) (v : value) (acc : Z) (s : state)
    (pre post : list guard) (a : access) (static : bool) (sp : space)
    (typeStr varName : string) :
  is_member_id id = true -> m <> "" ->
  parentClassName cls = Some parent ->
  registry !! lower parent = Some pcls ->
  Forall (fun g' => sqf_eq m (g_name g') = false) (members cls ++ pre) ->
  members pcls = pre ++ Guard a (VAR static sp typeStr varName) :: post ->
  sqf_eq m varName = true -> lvl a <= 1 -> fits typeStr (Some v) ->
  let key := format2 (if static then className pcls else id) varName in
  dispatcher NAMESPACE registry (call_code NAMESPACE registry (S fuel)) cls amb
    (member_call id m (Some v) acc) s =
    Returned None (setVariable sp key (Some v) s) /\
  dispatcher NAMESPACE registry (call_code NAMESPACE registry (S fuel)) cls amb
    (member_call id m None acc) (setVariable sp key (Some v) s) =
    Returned (Some v) (setVariable sp key (Some v) s).
Proof.
  intros Hid Hm Hp Hreg Hall Hms Hname Hacc Hty key.
  apply List.Forall_app in Hall as [Hc Hpre].
  assert (Hfw : forall arg st, fits typeStr arg ->
    dispatcher NAMESPACE registry (call_code NAMESPACE registry (S fuel)) cls amb
      (member_call id m arg acc) st =
    guard_body (Guard a (VAR static sp typeStr varName))
      (locals_of pcls (Some parent) id m arg 1) st).
  { intros arg st Hfit.
    apply (forwarded_call fuel cls pcls amb id m parent arg acc st pre post); try assumption.
    - eapply List.Forall_impl; [|exact Hc]. intros g' Hg'. now apply guard_cond_other_name.
    - eapply List.Forall_impl; [|exact Hpre]. intros g' Hg'. now apply guard_cond_other_name.
    - now apply variable_guard_cond. }
  rewrite !Hfw by (exact Hty || exact I).
  subst key. destruct static; cbn -[getVariable setVariable]; unfold GETVAR, GETSVAR;
    cbn -[getVariable setVariable]; now rewrite getVariable_setVariable_eq.
Qed.

(** X7: ["static"] puts the class name where the instance identifier goes,
    so a [PUBLIC] variable member that is not static is stored under the key
    of the class name, the key a static variable of that name has. *)
Theorem static_operation_uses_class_key (fuel : nat) (cls : class) (amb : option string)
    (cname m : string) (v : value) (s : state) (pre post : list guard)
    (static : bool) (sp : space) (typeStr varName : string) :
  registry !! lower cname = Some cls ->
  registry !! lower (className cls) = Some cls ->
  is_member_id (className cls) = true -> m <> "" ->
  members cls = pre ++ Guard PUBLIC (VAR static sp typeStr varName) :: post ->
  Forall (fun g => sqf_eq m (g_name g) = false) pre ->
  sqf_eq m varName = true -> fits typeStr (Some v) ->
  call_code NAMESPACE registry (S (S fuel)) amb (CClass cname) (static_call m (Some v)) s =
    Returned None (setVariable sp (format2 (className cls) varName) (Some v) s).
Proof.
  intros Hreg Hself Hid Hm Hms Hpre Hname Hty.
  rewrite (call_code_class _ _ _ _ _ _ _ _ Hreg), dispatcher_static.
  rewrite (GETCLASS_registered _ _ _ Hself), (call_code_class _ _ _ _ _ _ _ _ Hself).
  rewrite (variable_member_call _ _ _ _ _ _ _ _ _ _ _ _ _ _ _ _ _ Hms Hpre Hname Hm Hid)
    by (simpl; lia || exact Hty).
  destruct static; reflexivity.
Qed.

End Inheritance.

(** ** The access level of constructors and deconstructors *)

(** At access level 1 a guard that is not [PRIVATE] matches on the member
    name and the argument type alone. *)
Lemma guard_cond_level_1 (g : guard) (l : locals) :
  _objAccess l = 1 -> g_access g <> PRIVATE ->
  guard_cond g l = guard_cond (Guard PUBLIC (g_member g)) l.
Proof.
  intros Hl Hg. unfold guard_cond, CHECK_ACCESS. cbn [g_access g_member]. rewrite Hl.
  destruct (g_access g); [reflexivity|reflexivity|congruence].
Qed.

Section ConstructorAccess.

Variable NAMESPACE : space.
Variable registry : gmap string class.

(** A member call that the class does not match and that no parent class in
    scope takes over returns nil. *)
Lemma unmatched_call_returns_nil (fuel : nat) (cls : class) (id m : string)
    (arg : option value) (s : state) :
  registry !! lower (className cls) = Some cls ->
  parentClassName cls = None ->
  is_member_id id = true -> m <> "" ->
  (forall g, In g (members cls) -> sqf_eq m (g_name g) = true -> g_access g <> PUBLIC) ->
  call_code NAMESPACE registry (S fuel) None (CClass (className cls))
    (member_call id m arg 0) s = Returned None s.
Proof.
  intros Hreg Hp Hid Hm Hacc.
  rewrite (call_code_class _ _ _ _ _ _ _ _ Hreg).
  apply unmatched_without_parent; try assumption.
  apply guards_above_access. intros g Hg Hn.
  pose proof (Hacc g Hg Hn) as Hne.
  destruct (g_access g); simpl; try lia. congruence.
Qed.

(** A member call that the class does not match and that the parent class
    matches first with a guard that is not [PRIVATE] runs the body of that
    guard. *)
Lemma parent_member_runs (fuel : nat) (cls pcls : class) (amb : option string)
    (id m parent : string) (arg : option value) (s : state)
    (pre post : list guard) (g : guard) :
  registry !! lower (className cls) = Some cls ->
  is_member_id id = true -> m <> "" ->
  parentClassName cls = Some parent ->
  registry !! lower parent = Some pcls ->
  Forall (fun g' => guard_cond g' (locals_of cls amb id m arg 0) = false) (members cls) ->
  members pcls = pre ++ g :: post ->
  Forall (fun g' => guard_cond g' (locals_of pcls (Some parent) id m arg 1) = false) pre ->
  g_access g <> PRIVATE ->
  guard_cond (Guard PUBLIC (g_member g)) (locals_of pcls (Some parent) id m arg 1) = true ->
  call_code NAMESPACE registry (S (S fuel)) amb (CClass (className cls))
    (member_call id m arg 0) s =
  guard_body g (locals_of pcls (Some parent) id m arg 1) s.
Proof.
  intros Hreg Hid Hm Hp Hpreg Hall Hms Hpre Hg Hmatch.
  rewrite (call_code_class _ _ _ _ _ _ _ _ Hreg).
  apply (forwarded_call _ _ fuel cls pcls amb id m parent arg 0 s pre post g);
    try assumption.
  rewrite guard_cond_level_1 by (reflexivity || assumption). exact Hmatch.
Qed.


End ConstructorAccess.

(** * Properties of the macros for member bodies *)

Lemma with_vars_vars (sp : space) (s : state) : with_vars sp (vars sp s) s = s.
Proof. now destruct sp, s. Qed.

Lemma with_vars_twice (sp : space) (m m' : gmap string value) (s : state) :
  with_vars sp m' (with_vars sp m s) = with_vars sp m' s.
Proof. now destruct sp. Qed.

Lemma setVariable_same (sp : space) (k : string) (v : value) (s : state) :
  getVariable sp k s = Some v -> setVariable sp k (Some v) s = s.
Proof.
  unfold getVariable, setVariable. intros H. rewrite insert_id by exact H.
  apply with_vars_vars.
Qed.

Lemma setVariable_twice (sp : space) (k : string) (v v' : option value) (s : state) :
  setVariable sp k v' (setVariable sp k v s) = setVariable sp k v' s.
Proof.
  unfold setVariable.
  destruct v as [x|], v' as [x'|]; rewrite vars_with_vars, decide_True by reflexivity;
    rewrite with_vars_twice; f_equal.
  - apply insert_insert_eq.
  - apply delete_insert_eq.
  - apply insert_delete_eq.
  - apply delete_delete_eq.
Qed.

Section MemberMacros.

Variable NAMESPACE : space.
Variable registry : gmap string class.

(** [MEMBER] on a variable member of the body's own class runs the body of
    the variable, whatever the access level of the member. *)
Lemma MEMBER_resolves (fuel : nat) (l : locals) (static : bool) (sp : space)
    (typeStr varName : string) (arg : option value) (s : state) :
  own_variable registry l static sp typeStr varName -> fits typeStr arg ->
  MEMBER registry (call_code NAMESPACE registry (S fuel)) l varName arg s =
  MEMBER_variable static sp varName l arg s.
Proof.
  intros (cls & pre & a & post & Hreg & Hcn & Hms & Hpre & Hn & Hid) Hty.
  unfold MEMBER, CALLCLASS.
  rewrite (GETCLASS_registered _ _ _ Hreg), (call_code_class _ _ _ _ _ _ _ _ Hreg).
  change (Some (VArr [Some (VStr (_objClassID l)); Some (VStr varName); arg; Some (VNum 2)]))
    with (member_call (_objClassID l) varName arg 2).
  rewrite (variable_member_call _ _ _ _ _ _ _ _ _ _ _ _ _ _ _ _ _ Hms Hpre
             (sqf_eq_refl varName) Hn Hid).
  - unfold guard_body, MEMBER_variable, SVAR_DFT_FUNC, VAR_DFT_FUNC, GETVAR, GETSVAR.
    destruct static; cbn [g_member locals_of _this _objClassID _objClass];
      rewrite ?Hcn; reflexivity.
  - destruct a; simpl; lia.
  - exact Hty.
Qed.

(** X8: inside a body, [MEMBER(varName,v)] stores a value of the right type
    in a variable member of the body's own class, [PRIVATE] ones included,
    and [MEMBER(varName,nil)] and [FUNC_GETVAR(varName)] then return it. *)
Theorem MEMBER_reads_what_it_wrote (fuel : nat) (l : locals) (static : bool) (sp : space)
    (typeStr varName : string) (v : value) (s : state) :
  own_variable registry l static sp typeStr varName -> fits typeStr (Some v) ->
  let call := call_code NAMESPACE registry (S fuel) in
  let s1 := setVariable sp (var_key static l varName) (Some v) s in
  MEMBER registry call l varName (Some v) s = Returned None s1 /\
  MEMBER registry call l varName None s1 = Returned (Some v) s1 /\
  FUNC_GETVAR registry call varName l s1 = Returned (Some v) s1.
Proof.
  intros Hown Hty call s1. unfold FUNC_GETVAR. subst call.
  rewrite !(MEMBER_resolves _ _ _ _ _ _ _ _ Hown) by (exact Hty || exact I).
  subst s1. unfold MEMBER_variable, var_key, SVAR_DFT_FUNC, VAR_DFT_FUNC, GETVAR, GETSVAR.
  destruct static; cbn -[getVariable setVariable];
    now rewrite getVariable_setVariable_eq.
Qed.

(** X9: [VAR_DELETE(varName,space)], the body of [DELETE_VARIABLE],
    [DELETE_M_VARIABLE], [DELETE_UI_VARIABLE] and [DELETE_P_VARIABLE], removes
    the instance variable [varName] kept in that namespace: [IS_NIL(varName)]
    is false after a value was stored and true after the deletion, and the
    deletion leaves the state that deleting before the write would have
    left. *)
Theorem VAR_DELETE_clears (fuel : nat) (l : locals) (sp : space)
    (typeStr varName : string) (v : value) (s : state) :
  own_variable registry l false sp typeStr varName -> fits typeStr (Some v) ->
  let call := call_code NAMESPACE registry (S fuel) in
  let s1 := setVariable sp (GETVAR l varName) (Some v) s in
  MEMBER registry call l varName (Some v) s = Returned None s1 /\
  IS_NIL registry call l varName s1 = Returned (Some (VBool false)) s1 /\
  IS_NIL registry call l varName (VAR_DELETE l varName sp s1) =
    Returned (Some (VBool true)) (VAR_DELETE l varName sp s1) /\
  VAR_DELETE l varName sp s1 = VAR_DELETE l varName sp s.
Proof.
  intros Hown Hty call s1. unfold IS_NIL. subst call.
  rewrite !(MEMBER_resolves _ _ _ _ _ _ _ _ Hown) by (exact Hty || exact I).
  subst s1. unfold MEMBER_variable, VAR_DFT_FUNC, VAR_DELETE, GETVAR.
  cbn -[getVariable setVariable].
  rewrite !getVariable_setVariable_eq by reflexivity. cbn [and_then].
  repeat split. apply setVariable_twice.
Qed.

(** X10: [VAR_DELETE(varName,space)] addresses the key of the instance in
    its namespace only: a static variable member of that name (of an instance
    whose identifier is not the class name) and a variable member kept in
    another namespace still hold their value. *)
Theorem VAR_DELETE_spares (fuel : nat) (l : locals) (static : bool) (sp sp' : space)
    (typeStr varName : string) (s : state) :
  own_variable registry l static sp typeStr varName ->
  (static = true /\ lower (_objClassID l) <> lower (_objClass l)) \/ sp <> sp' ->
  MEMBER registry (call_code NAMESPACE registry (S fuel)) l varName None
    (VAR_DELETE l varName sp' s) =
  Returned (getVariable sp (var_key static l varName) s) (VAR_DELETE l varName sp' s).
Proof.
  intros Hown Hor.
  rewrite (MEMBER_resolves _ _ _ _ _ _ _ _ Hown) by exact I.
  unfold MEMBER_variable, var_key, SVAR_DFT_FUNC, VAR_DFT_FUNC, VAR_DELETE, GETVAR, GETSVAR.
  assert (Hne : forall k, (static = true -> k = format2 (_objClass l) varName) ->
            (static = false -> k = format2 (_objClassID l) varName) ->
            getVariable sp k (setVariable sp' (format2 (_objClassID l) varName) None s) =
            getVariable sp k s).
  { intros k Hk Hk'. apply getVariable_setVariable_ne.
    destruct Hor as [[Hs Hid]|Hsp]; [right|left; congruence].
    rewrite (Hk Hs). intros E. apply Hid. eapply format2_key_inj. exact E. }
  destruct static; cbn -[getVariable setVariable]; rewrite Hne; try reflexivity;
    intros [=].
Qed.


(** X12: on a variable member that was never written (or was deleted),
    [ADD_VAR] and [SUB_VAR] store nothing: the nil that is read stays nil
    under [+] and [-], and [MEMBER] with a nil argument is a read. *)
Theorem ADD_VAR_on_nil (fuel : nat) (l : locals) (static : bool) (sp : space)
    (typeStr varName : string) (k : Z) (s : state) :
  own_variable registry l static sp typeStr varName ->
  getVariable sp (var_key static l varName) s = None ->
  let call := call_code NAMESPACE registry (S fuel) in
  ADD_VAR registry call l varName k s = Returned None s /\
  SUB_VAR registry call l varName k s = Returned None s.
Proof.
  intros Hown Hz call.
  assert (MEMBER_variable static sp varName l None s = Returned None s) as Hread.
  { unfold MEMBER_variable, var_key, SVAR_DFT_FUNC, VAR_DFT_FUNC, GETVAR, GETSVAR in *.
    destruct static; cbn -[getVariable setVariable] in *; now rewrite Hz. }
  unfold ADD_VAR, SUB_VAR, MOD_VAR. subst call.
  rewrite !(MEMBER_resolves _ _ _ _ _ _ _ _ Hown) by exact I.
  rewrite Hread. cbn [and_then plus_scalar minus_scalar].
  rewrite !(MEMBER_resolves _ _ _ _ _ _ _ _ Hown) by exact I.
  now rewrite Hread.
Qed.

End MemberMacros.

(** X15: the body of a variable member always returns, and it changes at
    most the variable under its own key in its own namespace; the variables
    of the other namespaces and under the other keys are as before. *)
Theorem variable_member_frame (a : access) (static : bool) (sp : space)
    (typeStr varName : string) (l : locals) (s : state) :
  exists r s',
    guard_body (Guard a (VAR static sp typeStr varName)) l s = Returned r s' /\
    forall sp' k,
      sp' <> sp \/ lower k <> lower (var_key static l varName) ->
      getVariable sp' k s' = getVariable sp' k s.
Proof.
  unfold guard_body, var_key, SVAR_DFT_FUNC, VAR_DFT_FUNC. cbn [g_member].
  destruct static, (_this l) as [v|]; eexists _, _; (split; [reflexivity|]);
    intros sp' k Hne; try reflexivity;
    apply getVariable_setVariable_ne; destruct Hne; auto.
Qed.

(** * Properties of the macros on the argument array *)


Lemma sqf_set_length (idx : nat) (v : option value) (arr : list (option value)) :
  List.length (sqf_set idx v arr) = Nat.max (List.length arr) (S idx).
Proof.
  unfold sqf_set. rewrite length_insert, length_app, length_replicate. lia.
Qed.


(** * Instances on the example classes *)

Lemma Counter_own_count :
  own_variable Counter_registry (Counter_locals "Counter_1") true missionNamespace
    "scalar" "count".
Proof.
  exists Counter, [], PRIVATE, (List.tl (members Counter)).
  repeat split; try reflexivity; try constructor. discriminate.
Qed.

Lemma PlayerInfo_own_currentUnit :
  own_variable PlayerInfo_registry (PlayerInfo_locals "PlayerInfo_1") false missionNamespace
    "object" "currentUnit".
Proof.
  exists PlayerInfo, [Guard PRIVATE (STATIC_VARIABLE missionNamespace "scalar" "unitCount")],
    PRIVATE, (List.tl (List.tl (members PlayerInfo))).
  repeat split; try reflexivity; try (repeat constructor). discriminate.
Qed.

Lemma full_access_ignores_modifiers_witness :
  dispatcher missionNamespace Vault_registry (fun _ _ _ _ => Failed) Vault None
    (member_call "Vault_1" "secret" None 2) empty_state =
  dispatcher missionNamespace Vault_registry (fun _ _ _ _ => Failed) (all_public Vault) None
    (member_call "Vault_1" "secret" None 2) empty_state.
Proof. apply full_access_ignores_modifiers. cbn. lia. Defined.

Lemma unregistered_parent_returns_nil_witness :
  dispatcher missionNamespace Orphan_registry
    (call_code missionNamespace Orphan_registry 1) Orphan None
    (member_call "Orphan_1" "update" None 0) empty_state = Returned None empty_state.
Proof.
  apply (unregistered_parent_returns_nil missionNamespace Orphan_registry 0 Orphan None
           "Orphan_1" "update" "Nowhere" None 0 empty_state);
    reflexivity || discriminate || constructor.
Defined.

Lemma mistyped_call_is_dropped_witness :
  dispatcher missionNamespace PlayerInfo_registry (fun _ _ _ _ => Failed) PlayerInfo None
    (member_call "PlayerInfo_1" "unitCount" (Some (VStr "many")) 2) empty_state =
  Returned None empty_state.
Proof.
  apply mistyped_call_is_dropped; try (reflexivity || discriminate).
  intros g Hg. unfold PlayerInfo, CLASS in Hg. cbn [members In] in Hg.
  destruct Hg as [<-|[<-|[<-|[<-|[<-|[<-|[]]]]]]]; intros Hn;
    try discriminate Hn; split; reflexivity.
Defined.

Lemma inherited_member_runs_as_parent_witness :
  dispatcher missionNamespace Account_registry
    (call_code missionNamespace Account_registry 1) Savings None
    (member_call "Savings_1" "total" None 0) empty_state =
  guard_body (Guard PROTECTED (STATIC_VARIABLE missionNamespace "scalar" "total"))
    (mkLocals "Savings_1" "total" None 1 "" "Account" (Some "Account")) empty_state.
Proof.
  apply (inherited_member_runs_as_parent missionNamespace Account_registry 0 Savings Account
           None "Savings_1" "total" "Account" None 0 empty_state []
           (List.tl (members Account)));
    try (reflexivity || discriminate). repeat constructor.
Defined.

Lemma inherited_variable_key_witness :
  dispatcher missionNamespace Account_registry
    (call_code missionNamespace Account_registry 1) Savings None
    (member_call "Savings_1" "total" (Some (VNum 10)) 0) empty_state =
  Returned None (setVariable missionNamespace "Account_total" (Some (VNum 10)) empty_state).
Proof.
  apply (inherited_variable_key missionNamespace Account_registry 0 Savings Account
           None "Savings_1" "total" "Account" (VNum 10) 0 empty_state []
           (List.tl (members Account)) PROTECTED true missionNamespace "scalar" "total");
    try (reflexivity || discriminate); try (simpl; lia). repeat constructor.
Defined.

Lemma static_operation_uses_class_key_witness :
  call_code missionNamespace Account_registry 2 None (CClass "Account")
    (static_call "owner" (Some (VStr "ann"))) empty_state =
  Returned None (setVariable missionNamespace "Account_owner" (Some (VStr "ann")) empty_state).
Proof.
  apply (static_operation_uses_class_key missionNamespace Account_registry 0 Account None
           "Account" "owner" (VStr "ann") empty_state
           [Guard PROTECTED (STATIC_VARIABLE missionNamespace "scalar" "total")] []
           false missionNamespace "string" "owner");
    try (reflexivity || discriminate). repeat constructor.
Defined.

Lemma MEMBER_reads_what_it_wrote_witness :
  let call := call_code missionNamespace Counter_registry 1 in
  let s1 := setVariable missionNamespace "Counter_count" (Some (VNum 5)) empty_state in
  MEMBER Counter_registry call (Counter_locals "Counter_1") "count" (Some (VNum 5))
    empty_state = Returned None s1 /\
  MEMBER Counter_registry call (Counter_locals "Counter_1") "count" None s1 =
    Returned (Some (VNum 5)) s1 /\
  FUNC_GETVAR Counter_registry call "count" (Counter_locals "Counter_1") s1 =
    Returned (Some (VNum 5)) s1.
Proof.
  apply (MEMBER_reads_what_it_wrote missionNamespace Counter_registry 0
           (Counter_locals "Counter_1") true missionNamespace "scalar" "count" (VNum 5)
           empty_state Counter_own_count).
  reflexivity.
Defined.

Lemma VAR_DELETE_clears_witness :
  let call := call_code missionNamespace PlayerInfo_registry 1 in
  let l := PlayerInfo_locals "PlayerInfo_1" in
  let s1 := setVariable missionNamespace "PlayerInfo_1_currentUnit"
              (Some (VOther "OBJECT" 7)) empty_state in
  IS_NIL PlayerInfo_registry call l "currentUnit" s1 = Returned (Some (VBool false)) s1 /\
  IS_NIL PlayerInfo_registry call l "currentUnit"
    (DELETE_VARIABLE missionNamespace l "currentUnit" s1) =
    Returned (Some (VBool true)) (DELETE_VARIABLE missionNamespace l "currentUnit" s1).
Proof.
  intros call l s1.
  destruct (VAR_DELETE_clears missionNamespace PlayerInfo_registry 0 l missionNamespace
              "object" "currentUnit" (VOther "OBJECT" 7) empty_state
              PlayerInfo_own_currentUnit eq_refl) as (_ & H1 & H2 & _).
  split; [exact H1|exact H2].
Defined.

Lemma VAR_DELETE_spares_witness :
  let s := setVariable missionNamespace "Counter_count" (Some (VNum 4)) empty_state in
  MEMBER Counter_registry (call_code missionNamespace Counter_registry 1)
    (Counter_locals "Counter_1") "count" None
    (DELETE_VARIABLE missionNamespace (Counter_locals "Counter_1") "count" s) =
  Returned (Some (VNum 4))
    (DELETE_VARIABLE missionNamespace (Counter_locals "Counter_1") "count" s).
Proof.
  intros s.
  apply (VAR_DELETE_spares missionNamespace Counter_registry 0
           (Counter_locals "Counter_1") true missionNamespace missionNamespace "scalar"
           "count" s Counter_own_count).
  left. split; [reflexivity|]. vm_compute. discriminate.
Defined.


Lemma ADD_VAR_on_nil_witness :
  let call := call_code missionNamespace Counter_registry 1 in
  ADD_VAR Counter_registry call (Counter_locals "Counter_1") "count" 3 empty_state =
    Returned None empty_state /\
  SUB_VAR Counter_registry call (Counter_locals "Counter_1") "count" 3 empty_state =
    Returned None empty_state.
Proof.
  apply (ADD_VAR_on_nil missionNamespace Counter_registry 0 (Counter_locals "Counter_1")
           true missionNamespace "scalar" "count" 3 empty_state Counter_own_count).
  reflexivity.
Defined.


